(* ===== verification/_CoqProject ===== *)
-Q . S2P
Prelude.v
Http.v
Logger.v
Json.v
UrlQuery.v
GoDecode.v
Client.v
Handlers.v
Server.v
