(* ===== verification/Prelude.v ===== *)
(** * A verification development of the Optimizely Agent track handler

    ** The program

    The repository slice is one Go file, [src/pkg/handlers/track.go]: the
    HTTP handler [TrackEvent] of the Optimizely Agent, and the struct
    [trackBody] it decodes the request body into.  The handler is straight
    line code with three early returns:

    - [parseContext r] resolves the SDK client bound to the request by the
      upstream middleware; an error is rendered as 500;
    - [ParseRequestBody r &body] decodes the JSON body into [trackBody];
      an error is rendered as 400;
    - [r.URL.Query().Get("eventKey")] reads the event key; an empty key is
      rendered as 400 with the message
      "missing required path parameter: eventKey";
    - otherwise it builds an [entities.UserContext] from the body, calls
      [optlyClient.Track], logs (error level on failure, debug level on
      success) and answers 404 with the error, or 204 with no content.

    Its collaborators are code of the repository outside [src/]
    ([parseContext], [ParseRequestBody], [RenderError],
    [middleware.GetLogger]), modelled from the spec, and libraries it only
    calls (net/http's ResponseWriter, net/url's query values, go-chi's
    render, zerolog, encoding/json, the Go SDK client), modelled from their
    documented behaviour as far as the handler observes it.

    ** Files (in dependency order)

    - [Prelude]    this header; the state monad [St] used for the handler's
                   effects, with its notation scope [st_scope], monad laws and
                   the rewrite database [st]; Go's [error] values
                   ([GoError]); a total store with update ([upd]) used for the
                   shared client objects; the substring test [contains]; the
                   equations of string append that stdpp hides from [simpl].
    - [Http]       net/http as the handler uses it: status codes, the
                   response recorder ([Header_Set], [WriteHeader], [Write])
                   with its "first WriteHeader wins" behaviour, and the
                   well-formedness [recorder_wf] its operations preserve.
    - [Logger]     zerolog (Module [Zerolog]) as used through
                   [middleware.GetLogger]: levels, the event builder chain
                   [Error()/Debug()], [Str], [Err], [Msg], with level
                   filtering (a disabled level yields a nil event, on which
                   every call is a no-op).
    - [Json]       JSON values (what Go decodes into [interface{}]), the
                   string encoder used by [render.JSON], the parser of
                   [json.Unmarshal] and a compact printer, with the round
                   trip [parse_print_ws] (printed text, then any white
                   space) and the adequacy of the parser's fuel.
    - [UrlQuery]   net/url's [Values], [ParseQuery] and [Values.Get]
                   ([r.URL.Query().Get]), with [Get_Query_first]: [Get]
                   returns the value of the first decodable pair of the key;
                   the client side [QueryEscape] and [Values.Encode], with
                   the round trip [Query_Encode].
    - [GoDecode]   encoding/json's decoding of a JSON value into a Go struct
                   (class [GoStruct]): fields matched by name among EXPORTED
                   fields only, exact name first and then up to ASCII case,
                   type errors kept as the first error.
    - [Client]     the SDK client as an interface (class [TrackClient]) with
                   the law the handler relies on ([TrackClientLaws]), and a
                   reference client [QueueClient] (an event queue over a set
                   of known event keys) that satisfies both.
    - [Handlers]   [trackBody] (track.go lines 30-34) as a [GoStruct], the
                   request, [parseContext], [ParseRequestBody],
                   [RenderError], [GetLogger], and [TrackEvent] (lines 37-72)
                   over a world of shared client objects, response recorder
                   and effect trace; its decomposition into the checks
                   ([plan]), the Track call and the finishing phase
                   ([after_track]); the sequential server loop [serve]; the
                   theorems about the handler.
    - [Server]     net/http's concurrent requests: threads whose handler
                   steps interleave over the shared client objects
                   ([server_step]), an executable scheduler, and the
                   theorems of serializability and of the queue bound.

    ** Theorems

    - functional behaviour of [TrackEvent] on each of its five branches
      (500 / 400 body / 400 key / 404 / 204), with the exact world after
      the request (client store, response, effect trace);
    - refinement: on a fresh response the handler ends in a verdict of the
      spec's decision table ([track_contract], [Verdict]), sends that
      verdict's status and calls Track once exactly for the two Track
      verdicts ([TrackEvent_refines_contract]);
    - composition with the client: a query written by [Values.Encode]
      is read back as the same map ([Query_Encode]), so an event key of
      any bytes reaches Track unchanged ([TrackEvent_encoded_eventKey]);
    - concurrency: every complete interleaving of concurrent requests
      ends with the client objects and responses of the sequential server
      on some ordering of the requests ([server_serializable]), Track
      being each handler's linearization point; with the reference
      client, the events queued
      stay anonymous under any interleaving ([server_anonymous]) and each
      client's queue grows by at most one event per request bound to it
      ([server_queue_bound]: no interleaving tracks a request twice);
    - safety: Track is called at most once, only after the three checks
      pass, and before any byte of the response is written, with exactly
      one WriteHeader per request; only the client bound to the request can
      change, and only by a successful Track; the response is 204 with an
      empty body or an error status with [{"error": msg}];
    - logging: one error line with the event key when Track fails and one
      debug line when it succeeds, each only when the logger's level
      enables it, and none on the other branches;
    - decoding: [trackBody]'s fields are unexported, so decoding never sets
      them and every tracked event carries an empty user ID and nil
      attributes and tags (a code bug); of the well-formed JSON bodies,
      exactly [null] and the objects are accepted, and for every body
      [ParseRequestBody] into [trackBody] is equivalent to that check
      ([ParseRequestBody_trackBody_check]); with the reference
      client, every queued event stays anonymous over any sequence of
      requests, and the same request served twice queues two events;
    - libraries: the JSON parse/print round trip; the parser's fuel
      [S (length input)] is enough for every input, since every step
      consumes input ([parse_value_shorter]) and any fuel above the length
      gives the same result ([parse_value_fuel]), so [Json.parse] is the
      fuel-free parser of encoding/json; the first-value semantics of
      [Values.Get].

    ** Bounds and fuel

    The only fuel is the JSON parser's, discussed above.  The counters of
    [parse_elems] and [parse_members] are the same fuel and are shown
    enough the same way.  Statuses, lengths and counts are unbounded
    naturals: the handler does no arithmetic on machine integers.

    ** Not modelled

    Routing and middleware: the router and the middleware that bind the
    SDK client and the logger to the request have no source in the slice,
    and the spec gives only what the handler reads back, so they cannot be
    modelled faithfully; [parseContext] and [GetLogger] read fields of the
    request record instead.  Also not modelled: the network, the SDK's event dispatch and batching (the
    reference client only queues).  The concurrent server takes the SDK's
    Track as one atomic step (the SDK synchronises its event processor);
    the interleaving of log lines in the shared log writer, request
    cancellation and timeouts are not modelled.  In the
    libraries: invalid UTF-8 and the escaping of U+2028 and U+2029 by the
    encoder, the nesting limit of the JSON scanner, numbers beyond their
    literal text, Unicode case folding (ASCII only), and the panic of
    [WriteHeader] on a status outside 100-999 (the handler only uses fixed
    valid statuses).
*)

From stdpp Require Export base strings gmap list.
From Stdlib Require Export ZArith Ascii.

Declare Scope st_scope.
Delimit Scope st_scope with st.

(** ** A state monad for the handler's effects *)

(** A computation reads and updates a state and returns a value:
    [St S A] is [S -> A * S] (value first, as ExtLib's [state]). *)
Definition St (S A : Type) : Type := S -> A * S.

Definition st_ret {S A} (a : A) : St S A := fun s => (a, s).

Definition st_bind {S A B} (m : St S A) (k : A -> St S B) : St S B :=
  fun s => let '(a, s') := m s in k a s'.

Definition st_get {S} : St S S := fun s => (s, s).

Definition st_modify {S} (f : S -> S) : St S unit := fun s => (tt, f s).

Notation "x <- m ;; k" := (st_bind m (fun x => k))
  (at level 100, m at next level, k at level 200) : st_scope.
Notation "m ;; k" := (st_bind m (fun _ : unit => k))
  (at level 100, k at level 200) : st_scope.

(** ** Go errors

    A non-nil Go [error] value, by its message ([err.Error()]).  A nil error
    is [None] of an [option GoError]. *)
Record GoError := Errorf { Error : string }.

(** ** A total store

    Go pointers never dangle: a store of objects addressed by references
    is a total function, updated in place. *)
Definition upd {K V : Type} `{EqDecision K} (f : K -> V) (k : K) (v : V) : K -> V :=
  fun k' => if decide (k = k') then v else f k'.

(** ** Substrings *)

Fixpoint contains (sub s : string) : bool :=
  String.prefix sub s ||
  match s with
  | EmptyString => false
  | String _ s' => contains sub s'
  end.

(** The double-quote character (written by code, since a string literal
    cannot hold it without doubling it). *)
Definition dq : Ascii.ascii := Ascii.ascii_of_nat 34.

(** ** Lemmas *)

Section StLaws.
Context {S : Type}.

Lemma st_bind_ret_l {A B} (a : A) (k : A -> St S B) :
  st_bind (st_ret a) k = k a.
Proof. reflexivity. Qed.

Lemma st_bind_assoc {A B C} (m : St S A) (k : A -> St S B) (h : B -> St S C) s :
  st_bind (st_bind m k) h s = st_bind m (fun a => st_bind (k a) h) s.
Proof. unfold st_bind. by destruct (m s). Qed.

Lemma st_bind_run {A B} (m : St S A) (k : A -> St S B) (s : S) :
  st_bind m k s = k (m s).1 (m s).2.
Proof. unfold st_bind. by destruct (m s). Qed.
End StLaws.

Lemma upd_eq {K V} `{EqDecision K} (f : K -> V) k v : upd f k v k = v.
Proof. unfold upd. by rewrite decide_True. Qed.

Lemma upd_ne {K V} `{EqDecision K} (f : K -> V) k k' v :
  k ≠ k' -> upd f k v k' = f k'.
Proof. intros Hne. unfold upd. by rewrite decide_False. Qed.

(** stdpp makes [String.append] opaque to [simpl]: its two equations. *)
Lemma string_app_nil_l (s : string) : EmptyString +:+ s = s.
Proof. reflexivity. Qed.

Lemma string_app_cons c (s t : string) : String c s +:+ t = String c (s +:+ t).
Proof. reflexivity. Qed.

Lemma string_app_assoc (s1 s2 s3 : string) : (s1 +:+ s2) +:+ s3 = s1 +:+ (s2 +:+ s3).
Proof. induction s1 as [|c s1 IH]; [done|]. by rewrite !string_app_cons, IH. Qed.

Lemma string_app_nil_r (s : string) : s +:+ EmptyString = s.
Proof. induction s as [|c s IH]; [done|]. by rewrite string_app_cons, IH. Qed.

Lemma list_ascii_of_string_app (s t : string) :
  String.list_ascii_of_string (s +:+ t) = String.list_ascii_of_string s ++ String.list_ascii_of_string t.
Proof. induction s as [|c s IH]; [done|]. rewrite string_app_cons. simpl. by rewrite IH. Qed.

Lemma string_length_app (s t : string) : String.length (s +:+ t) = String.length s + String.length t.
Proof. induction s as [|c s IH]; [done|]. rewrite string_app_cons. simpl. by rewrite IH. Qed.

Lemma prefix_app (s t : string) : String.prefix s (s +:+ t) = true.
Proof. induction s as [|c s IH]; [by destruct t|]. simpl. by destruct (Ascii.ascii_dec c c). Qed.

Lemma contains_prefix (sub s : string) : String.prefix sub s = true -> contains sub s = true.
Proof. intros H. destruct s; cbn [contains]; by rewrite H. Qed.

(** [contains t s] holds as soon as [t] occurs in [s] at some position. *)
Lemma contains_app (s1 t s2 : string) : contains t (s1 +:+ t +:+ s2) = true.
Proof.
  induction s1 as [|c s1 IH].
  - apply contains_prefix, (prefix_app t s2).
  - rewrite string_app_cons. cbn [contains]. rewrite IH. apply orb_true_r.
Qed.

Create Rewrite HintDb st.
Create HintDb agent.
#[export] Hint Rewrite @st_bind_ret_l @upd_eq : st.
#[export] Hint Rewrite string_app_nil_l string_app_cons string_app_assoc string_app_nil_r : st.
#[export] Hint Resolve contains_app prefix_app : agent.
