(* ===== verification/Http.v ===== *)
(** * net/http: status codes and the response writer

    The response side of a request: status codes, the [ResponseWriter]
    seen as a recorder of what was sent (status line, headers, body), and
    its three operations [Header().Set], [WriteHeader] and [Write] (the
    go-chi/render helpers built on them are in [Handlers], where their calls
    are recorded).  This is library code, modelled from net/http's
    documented semantics:
    - the first [WriteHeader] fixes the status, later calls are ignored
      ("superfluous WriteHeader call");
    - [Write] without a prior [WriteHeader] sends status 200 first;
    - a status that allows no body (1xx, 204, 304) makes [Write] fail
      with [ErrBodyNotAllowed] and send nothing;
    - headers set after the status line has been sent are not sent.
    [recorder_wf] is the invariant these operations keep: nothing is sent
    before the status line, and no body with a status that forbids one. *)

From S2P Require Import Prelude.


Local Open Scope string_scope.
Local Open Scope Z_scope.

(** ** Status codes (net/http constants) *)

Definition StatusOK : Z := 200.
Definition StatusNoContent : Z := 204.
Definition StatusNotModified : Z := 304.
Definition StatusBadRequest : Z := 400.
Definition StatusNotFound : Z := 404.
Definition StatusInternalServerError : Z := 500.

(** [bodyAllowedForStatus] of net/http. *)
Definition bodyAllowedForStatus (status : Z) : bool :=
  if (100 <=? status) && (status <=? 199) then false
  else if status =? 204 then false
  else if status =? 304 then false
  else true.

(** ** The response writer *)

Record Recorder := {
  rec_code : option Z;                (** status sent, if any *)
  rec_header : gmap string string;    (** headers sent with the status *)
  pending_header : gmap string string;(** [w.Header()] before the status *)
  rec_body : string                   (** body bytes written *)
}.

Definition fresh_recorder : Recorder :=
  {| rec_code := None; rec_header := ∅; pending_header := ∅; rec_body := "" |}.

(** [w.Header().Set(k, v)]: only affects a response not yet started. *)
Definition Header_Set (k v : string) (w : Recorder) : Recorder :=
  {| rec_code := rec_code w; rec_header := rec_header w;
     pending_header := <[k := v]> (pending_header w); rec_body := rec_body w |}.

(** [w.WriteHeader(code)]: the first call sends the status line and the
    pending headers; later calls are superfluous and change nothing. *)
Definition WriteHeader (code : Z) (w : Recorder) : Recorder :=
  match rec_code w with
  | Some _ => w
  | None =>
      {| rec_code := Some code; rec_header := pending_header w;
         pending_header := pending_header w; rec_body := rec_body w |}
  end.

(** [w.Write(b)]: sends 200 first when no status was sent; fails with
    [ErrBodyNotAllowed] (returned as [false]) when the status forbids a
    body. *)
Definition Write (b : string) (w : Recorder) : bool * Recorder :=
  let w := WriteHeader StatusOK w in
  match rec_code w with
  | Some c =>
      if bodyAllowedForStatus c then
        (true, {| rec_code := rec_code w; rec_header := rec_header w;
                  pending_header := pending_header w;
                  rec_body := rec_body w +:+ b |})
      else (false, w)
  | None => (true, w)
  end.

(** ** Well-formed responses

    What net/http guarantees of every response it has written: nothing is
    sent before the status line, and no body is sent with a status that
    forbids one. *)
Definition recorder_wf (w : Recorder) : Prop :=
  match rec_code w with
  | None => rec_header w = ∅ /\ rec_body w = ""
  | Some c => bodyAllowedForStatus c = false -> rec_body w = ""
  end.

(** ** Lemmas *)

(** The status, once sent, never changes: [WriteHeader] is idempotent on a
    started response and [Write] and [Header_Set] keep the status. *)
Lemma WriteHeader_started code w c :
  rec_code w = Some c -> WriteHeader code w = w.
Proof. unfold WriteHeader. by intros ->. Qed.

Lemma WriteHeader_fresh code w :
  rec_code w = None -> rec_code (WriteHeader code w) = Some code.
Proof. unfold WriteHeader. by intros ->. Qed.

Lemma WriteHeader_code_some code w :
  rec_code (WriteHeader code w) = Some (default code (rec_code w)).
Proof. unfold WriteHeader. destruct (rec_code w) eqn:E; simpl; auto. Qed.

Lemma Write_code b w :
  rec_code (Write b w).2 = Some (default StatusOK (rec_code w)).
Proof.
  unfold Write. pose proof (WriteHeader_code_some StatusOK w) as H.
  destruct (rec_code (WriteHeader StatusOK w)) as [c|] eqn:E; [|done].
  destruct (bodyAllowedForStatus c); simpl; congruence.
Qed.

Lemma Header_Set_code k v w : rec_code (Header_Set k v w) = rec_code w.
Proof. done. Qed.

Lemma fresh_recorder_wf : recorder_wf fresh_recorder.
Proof. split; reflexivity. Qed.

Lemma Header_Set_wf k v w : recorder_wf w -> recorder_wf (Header_Set k v w).
Proof. done. Qed.

Lemma WriteHeader_wf code w : recorder_wf w -> recorder_wf (WriteHeader code w).
Proof.
  unfold recorder_wf, WriteHeader. destruct (rec_code w) as [c|] eqn:E; [by rewrite E|].
  cbn. intros [_ Hb] _. exact Hb.
Qed.

Lemma Write_wf b w : recorder_wf w -> recorder_wf (Write b w).2.
Proof.
  intros Hw. pose proof (WriteHeader_wf StatusOK w Hw) as Hw'. unfold Write.
  destruct (WriteHeader StatusOK w) as [code hd pend body] eqn:E. cbn [rec_code] in *.
  destruct code as [c|]; [|exact Hw']. destruct (bodyAllowedForStatus c) eqn:Hc; [|exact Hw'].
  unfold recorder_wf. cbn. by rewrite Hc.
Qed.

#[export] Hint Resolve fresh_recorder_wf Header_Set_wf WriteHeader_wf Write_wf : agent.
