(* ===== verification/Logger.v ===== *)
(** * zerolog, as the handler logs through [middleware.GetLogger(r)]

    A logger has a minimum level and context fields.  [Error()] and
    [Debug()] start an event, which is nil when the level is below the
    logger's level; [Str] and [Err] add a field to a non-nil event, and
    [Msg] emits it.  Every method of a nil event is a no-op, so a disabled
    level emits nothing.  The global level of zerolog is folded into the
    logger's level. *)

From S2P Require Import Prelude.

Module Zerolog.

Local Open Scope string_scope.
Local Open Scope Z_scope.

Inductive Level := TraceLevel | DebugLevel | InfoLevel | WarnLevel | ErrorLevel | Disabled.

#[export] Instance Level_eq_dec : EqDecision Level.
Proof. solve_decision. Defined.

(** zerolog's numeric levels ([Disabled] is 7). *)
Definition level_num (l : Level) : Z :=
  match l with
  | TraceLevel => -1 | DebugLevel => 0 | InfoLevel => 1
  | WarnLevel => 2 | ErrorLevel => 3 | Disabled => 7
  end.

Record Logger := { lg_level : Level; lg_context : list (string * string) }.

(** A non-nil [*zerolog.Event]. *)
Record Event := { ev_level : Level; ev_fields : list (string * string) }.

(** One emitted log line. *)
Record LogEntry := {
  le_level : Level;
  le_fields : list (string * string);
  le_message : string
}.

(** [Logger.should]: the level is enabled. *)
Definition should (l : Logger) (lv : Level) : bool :=
  level_num (lg_level l) <=? level_num lv.

Definition newEvent (l : Logger) (lv : Level) : option Event :=
  if should l lv then Some {| ev_level := lv; ev_fields := lg_context l |} else None.

(** [l.Error()] and [l.Debug()]. *)
Definition Error (l : Logger) : option Event := newEvent l ErrorLevel.
Definition Debug (l : Logger) : option Event := newEvent l DebugLevel.

(** [e.Str(k, v)]. *)
Definition Str (k v : string) (e : option Event) : option Event :=
  match e with
  | None => None
  | Some e => Some {| ev_level := ev_level e; ev_fields := ev_fields e ++ [(k, v)] |}
  end.

(** [e.Err(err)] for a non-nil [err]: the field [ErrorFieldName]
    ("error") with [err.Error()]. *)
Definition ErrorFieldName : string := "error".

Definition Err (err : GoError) (e : option Event) : option Event :=
  Str ErrorFieldName (Prelude.Error err) e.

(** [e.Msg(m)]: the line emitted, if any. *)
Definition Msg (e : option Event) (m : string) : option LogEntry :=
  match e with
  | None => None
  | Some e => Some {| le_level := ev_level e; le_fields := ev_fields e; le_message := m |}
  end.

(** ** Lemmas *)

Lemma newEvent_enabled l lv :
  should l lv = true -> newEvent l lv = Some {| ev_level := lv; ev_fields := lg_context l |}.
Proof. unfold newEvent. by intros ->. Qed.

Lemma newEvent_disabled l lv : should l lv = false -> newEvent l lv = None.
Proof. unfold newEvent. by intros ->. Qed.

(** An event built on an enabled level carries the logger's context
    followed by the fields added, in the order they were added. *)
Lemma Msg_Str l lv k v m :
  Msg (Str k v (newEvent l lv)) m =
  if should l lv
  then Some {| le_level := lv; le_fields := lg_context l ++ [(k, v)]; le_message := m |}
  else None.
Proof. unfold newEvent. by destruct (should l lv). Qed.

Lemma Msg_Str_Err l lv err k v m :
  Msg (Str k v (Err err (newEvent l lv))) m =
  if should l lv
  then Some {| le_level := lv;
               le_fields := lg_context l ++ [(ErrorFieldName, Prelude.Error err); (k, v)];
               le_message := m |}
  else None.
Proof. unfold Err, newEvent. destruct (should l lv); simpl; by rewrite <- ?app_assoc. Qed.

(** The error level is enabled whenever any level below it is. *)
Lemma should_error_of_debug l : should l DebugLevel = true -> should l ErrorLevel = true.
Proof. unfold should. simpl. rewrite !Z.leb_le. lia. Qed.

End Zerolog.
