(* ===== verification/Json.v ===== *)
(** * JSON values, encoding/json's string encoder, and its parser

    [json] is what encoding/json decodes into an [interface{}] (objects as
    association lists in source order, numbers kept as their literal text so
    that no float rounding is modelled).  [encode_string] is encoding/json's
    [encodeState.string] with HTML escaping on (json.Encoder's default, as
    go-chi's [render.JSON] uses it), for the Go release of the repository
    (before Go 1.22, \b and \f are written as \u0008 and \u000c).  Bytes
    of 0x80 and above are copied as they are: the model assumes valid UTF-8
    text and does not model the escaping of U+2028, U+2029 or of invalid
    UTF-8.

    [parse] is the scanner and decoder of [json.Unmarshal] on the body
    bytes: one value, surrounded by white space only, with the number
    grammar, the string escapes (including [\uXXXX] and surrogate pairs)
    and the literals of RFC 8259.  [parse_value] recurses on a fuel bound;
    [parse] gives it [S (length input)], which is enough on every input
    since every step consumes at least one byte ([parse_value_fuel]).  The
    nesting limit of 10000 of encoding/json is not modelled.  [print] is the
    compact printer; [parse_roundtrip] shows that [parse] reads back every
    well-formed value from its printed text. *)

From S2P Require Import Prelude.


Local Open Scope string_scope.
Local Open Scope nat_scope.

#[local] Set Warnings "-register-all".
Inductive json :=
  | JNull
  | JBool (b : bool)
  | JNumber (lit : string)
  | JString (s : string)
  | JArray (xs : list json)
  | JObject (kvs : list (string * json)).

(** ** The string encoder *)

Definition hex_digit (n : nat) : Ascii.ascii :=
  match String.get n "0123456789abcdef" with Some c => c | None => Ascii.ascii_of_nat 48 end.

Definition backslash : Ascii.ascii := Ascii.ascii_of_nat 92.

(** [htmlSafeSet]: printable ASCII other than the quote, the backslash and
    the HTML specials [<], [>], [&]. *)
Definition htmlSafe (c : Ascii.ascii) : bool :=
  let n := Ascii.nat_of_ascii c in
  (32 <=? n) && (n <=? 127) &&
  negb ((n =? 34) || (n =? 92) || (n =? 60) || (n =? 62) || (n =? 38)).

(** The escape sequence written for one byte. *)
Definition escape_byte (c : Ascii.ascii) : string :=
  let n := Ascii.nat_of_ascii c in
  if 128 <=? n then String c EmptyString
  else if htmlSafe c then String c EmptyString
  else if (n =? 34) || (n =? 92) then String backslash (String c EmptyString)
  else if n =? 10 then String backslash "n"
  else if n =? 13 then String backslash "r"
  else if n =? 9 then String backslash "t"
  else String backslash ("u00" +:+ String (hex_digit (n / 16)) (String (hex_digit (n mod 16)) EmptyString)).

Fixpoint escape (s : string) : string :=
  match s with
  | EmptyString => EmptyString
  | String c s' => escape_byte c +:+ escape s'
  end.

(** [e.string(s, escapeHTML=true)]: the quoted, escaped string. *)
Definition encode_string (s : string) : string :=
  String dq (escape s +:+ String dq EmptyString).


(** ** The parser ([json.Unmarshal]'s scanner and [literalStore] into an
    [interface{}])

    The input is a list of bytes.  [parse_value fuel s] parses one value
    after optional white space and returns it with the rest of the input;
    the fuel bounds the nesting depth and the number of members of one
    array or object, so [length s + 1] is always enough (each level and
    each member consumes at least one byte).  [\uXXXX] escapes are
    written as UTF-8; a surrogate pair is combined, a lone surrogate
    becomes U+FFFD. *)

Local Abbreviation bytes := (list ascii).
Local Close Scope string_scope.

Definition is_ws (c : ascii) : bool :=
  Ascii.eqb c " " || Ascii.eqb c "009" || Ascii.eqb c "010" || Ascii.eqb c "013".

Fixpoint skip_ws (s : bytes) : bytes :=
  match s with
  | c :: rest => if is_ws c then skip_ws rest else s
  | [] => []
  end.

Definition is_digit (c : ascii) : bool :=
  let n := nat_of_ascii c in (48 <=? n) && (n <=? 57).

Definition hex_val (c : ascii) : option N :=
  let n := N_of_ascii c in
  if (48 <=? n)%N && (n <=? 57)%N then Some (n - 48)%N
  else if (97 <=? n)%N && (n <=? 102)%N then Some (n - 87)%N
  else if (65 <=? n)%N && (n <=? 70)%N then Some (n - 55)%N
  else None.

(** [getu4]: four hex digits. *)
Definition getu4 (a b c d : ascii) : option N :=
  match hex_val a, hex_val b, hex_val c, hex_val d with
  | Some x, Some y, Some z, Some w => Some (((x * 16 + y) * 16 + z) * 16 + w)%N
  | _, _, _, _ => None
  end.

Definition byte (n : N) : ascii := ascii_of_N n.

(** [utf8.EncodeRune]; surrogates and out-of-range values give U+FFFD. *)
Local Open Scope N_scope.
Definition utf8_encode (r : N) : bytes :=
  if r <? 128 then [byte r]
  else if r <? 2048 then [byte (192 + r / 64); byte (128 + r mod 64)]
  else if (55296 <=? r) && (r <=? 57343) then [byte 239; byte 191; byte 189]
  else if r <? 65536 then
    [byte (224 + r / 4096); byte (128 + (r / 64) mod 64); byte (128 + r mod 64)]
  else if r <? 1114112 then
    [byte (240 + r / 262144); byte (128 + (r / 4096) mod 64);
     byte (128 + (r / 64) mod 64); byte (128 + r mod 64)]
  else [byte 239; byte 191; byte 189].

Definition is_high_surrogate (r : N) : bool := (55296 <=? r) && (r <=? 56319).
Definition is_low_surrogate (r : N) : bool := (56320 <=? r) && (r <=? 57343).
Local Close Scope N_scope.

(** The body of a string literal up to its closing quote: the decoded
    bytes and the rest of the input.  Control bytes are rejected. *)
Fixpoint parse_chars (s : bytes) : option (bytes * bytes) :=
  match s with
  | [] => None
  | c :: rest =>
      if Ascii.eqb c dq then Some ([], rest)
      else if Ascii.eqb c backslash then
        match rest with
        | [] => None
        | e :: rest' =>
            if Ascii.eqb e "u" then
              match rest' with
              | a :: b :: c' :: d :: rest'' =>
                  match getu4 a b c' d with
                  | None => None
                  | Some r =>
                      if is_high_surrogate r then
                        match rest'' with
                        | b1 :: u1 :: a1 :: b2 :: c2 :: d2 :: rest3 =>
                            match getu4 a1 b2 c2 d2 with
                            | Some r2 =>
                                if Ascii.eqb b1 backslash && Ascii.eqb u1 "u" && is_low_surrogate r2
                                then
                                  let cp := (65536 + (r - 55296) * 1024 + (r2 - 56320))%N in
                                  '(out, tl) ← parse_chars rest3; Some (utf8_encode cp ++ out, tl)
                                else '(out, tl) ← parse_chars rest''; Some (utf8_encode 65533 ++ out, tl)
                            | None => '(out, tl) ← parse_chars rest''; Some (utf8_encode 65533 ++ out, tl)
                            end
                        | _ => '(out, tl) ← parse_chars rest''; Some (utf8_encode 65533 ++ out, tl)
                        end
                      else '(out, tl) ← parse_chars rest''; Some (utf8_encode r ++ out, tl)
                  end
              | _ => None
              end
            else
              let esc :=
                if Ascii.eqb e dq then Some dq
                else if Ascii.eqb e backslash then Some backslash
                else if Ascii.eqb e "/" then Some "/"%char
                else if Ascii.eqb e "b" then Some (byte 8)
                else if Ascii.eqb e "f" then Some (byte 12)
                else if Ascii.eqb e "n" then Some (byte 10)
                else if Ascii.eqb e "r" then Some (byte 13)
                else if Ascii.eqb e "t" then Some (byte 9)
                else None in
              match esc with
              | Some x => '(out, tl) ← parse_chars rest'; Some (x :: out, tl)
              | None => None
              end
        end
      else if nat_of_ascii c <? 32 then None
      else '(out, tl) ← parse_chars rest; Some (c :: out, tl)
  end.

Fixpoint digits (s : bytes) : bytes * bytes :=
  match s with
  | c :: rest => if is_digit c then let '(d, tl) := digits rest in (c :: d, tl) else ([], s)
  | [] => ([], [])
  end.

Definition digits1 (s : bytes) : option (bytes * bytes) :=
  match digits s with ([], _) => None | r => Some r end.

(** A number literal: [-? (0 | [1-9][0-9]* ) (. [0-9]+)? ([eE] [+-]? [0-9]+)?],
    read in four stages, each returning what it consumed and the rest. *)
Definition num_sign (s : bytes) : bytes * bytes :=
  match s with
  | c :: tl => if Ascii.eqb c "-" then ([c], tl) else ([], s)
  | [] => ([], [])
  end.

Definition num_int (s : bytes) : option (bytes * bytes) :=
  match s with
  | c :: tl => if Ascii.eqb c "0" then Some ([c], tl)
               else if is_digit c then digits1 s else None
  | [] => None
  end.

Definition num_frac (s : bytes) : option (bytes * bytes) :=
  match s with
  | c :: tl => if Ascii.eqb c "." then '(d, tl') ← digits1 tl; Some (c :: d, tl')
               else Some ([], s)
  | [] => Some ([], [])
  end.

Definition num_exp (s : bytes) : option (bytes * bytes) :=
  match s with
  | c :: tl =>
      if Ascii.eqb c "e" || Ascii.eqb c "E" then
        let '(sg, tl1) := match tl with
                          | c' :: tl' => if Ascii.eqb c' "+" || Ascii.eqb c' "-"
                                         then ([c'], tl') else ([], tl)
                          | [] => ([], [])
                          end in
        '(d, tl2) ← digits1 tl1; Some (c :: sg ++ d, tl2)
      else Some ([], s)
  | [] => Some ([], [])
  end.

Definition parse_number (s : bytes) : option (bytes * bytes) :=
  let '(sign, s1) := num_sign s in
  '(ip, s2) ← num_int s1;
  '(fp, s3) ← num_frac s2;
  '(ep, s4) ← num_exp s3;
  Some (sign ++ ip ++ fp ++ ep, s4).

Definition lit_prefix (lit s : bytes) : option bytes :=
  if decide (take (length lit) s = lit) then Some (drop (length lit) s) else None.

(** The members of an array after its [[]: values separated by [,] up
    to the closing []]; [pv] parses one value, [g] bounds the count. *)
Fixpoint parse_elems (pv : bytes -> option (json * bytes)) (g : nat) (s : bytes)
    (acc : list json) : option (json * bytes) :=
  match g with
  | O => None
  | S g' =>
      '(v, tl) ← pv s;
      match skip_ws tl with
      | d :: tl' =>
          if Ascii.eqb d "," then parse_elems pv g' tl' (acc ++ [v])
          else if Ascii.eqb d "]" then Some (JArray (acc ++ [v]), tl')
          else None
      | [] => None
      end
  end.

(** The members of an object after its [{]: [key : value] pairs separated
    by [,] up to the closing [}]. *)
Fixpoint parse_members (pv : bytes -> option (json * bytes)) (g : nat) (s : bytes)
    (acc : list (string * json)) : option (json * bytes) :=
  match g with
  | O => None
  | S g' =>
      match skip_ws s with
      | q :: s1 =>
          if Ascii.eqb q dq then
            '(k, s2) ← parse_chars s1;
            match skip_ws s2 with
            | colon :: s3 =>
                if Ascii.eqb colon ":" then
                  '(v, tl) ← pv s3;
                  let acc' := acc ++ [(String.string_of_list_ascii k, v)] in
                  match skip_ws tl with
                  | d :: tl' =>
                      if Ascii.eqb d "," then parse_members pv g' tl' acc'
                      else if Ascii.eqb d "}" then Some (JObject acc', tl')
                      else None
                  | [] => None
                  end
                else None
            | [] => None
            end
          else None
      | [] => None
      end
  end.

Fixpoint parse_value (fuel : nat) (s : bytes) : option (json * bytes) :=
  match fuel with
  | O => None
  | S f =>
      match skip_ws s with
      | [] => None
      | c :: rest =>
          if Ascii.eqb c dq then
            '(str, tl) ← parse_chars rest; Some (JString (String.string_of_list_ascii str), tl)
          else if Ascii.eqb c "[" then
            match skip_ws rest with
            | c' :: tl =>
                if Ascii.eqb c' "]" then Some (JArray [], tl)
                else parse_elems (parse_value f) f rest []
            | [] => None
            end
          else if Ascii.eqb c "{" then
            match skip_ws rest with
            | c' :: tl =>
                if Ascii.eqb c' "}" then Some (JObject [], tl)
                else parse_members (parse_value f) f rest []
            | [] => None
            end
          else if Ascii.eqb c "t" then
            tl ← lit_prefix (String.list_ascii_of_string "true") (c :: rest); Some (JBool true, tl)
          else if Ascii.eqb c "f" then
            tl ← lit_prefix (String.list_ascii_of_string "false") (c :: rest); Some (JBool false, tl)
          else if Ascii.eqb c "n" then
            tl ← lit_prefix (String.list_ascii_of_string "null") (c :: rest); Some (JNull, tl)
          else
            '(lit, tl) ← parse_number (c :: rest); Some (JNumber (String.string_of_list_ascii lit), tl)
      end
  end.

(** [json.Unmarshal]'s syntax: exactly one value, surrounded by white
    space only; anything else is a [SyntaxError]. *)
Definition parse (input : string) : option json :=
  let s := String.list_ascii_of_string input in
  match parse_value (S (length s)) s with
  | Some (v, rest) => match skip_ws rest with [] => Some v | _ => None end
  | None => None
  end.

(** ** The printer: the compact JSON text of a value

    What [json.Marshal] writes for a decoded [interface{}] value, with the
    members of an object in the order of the list (no white space). *)

Definition escape_bytes (cs : list ascii) : list ascii :=
  flat_map (fun c => String.list_ascii_of_string (escape_byte c)) cs.

Definition quote (cs : list ascii) : list ascii := dq :: escape_bytes cs ++ [dq].

Fixpoint print (j : json) : list ascii :=
  match j with
  | JNull => String.list_ascii_of_string "null"
  | JBool true => String.list_ascii_of_string "true"
  | JBool false => String.list_ascii_of_string "false"
  | JNumber lit => String.list_ascii_of_string lit
  | JString s => quote (String.list_ascii_of_string s)
  | JArray [] => ["["; "]"]%char
  | JArray (x :: xs) =>
      "["%char :: print x ++
      (fix elems (xs : list json) : list ascii :=
         match xs with
         | [] => ["]"%char]
         | y :: ys => ","%char :: print y ++ elems ys
         end) xs
  | JObject [] => ["{"; "}"]%char
  | JObject ((k, v) :: kvs) =>
      "{"%char :: quote (String.list_ascii_of_string k) ++ ":"%char :: print v ++
      (fix members (kvs : list (string * json)) : list ascii :=
         match kvs with
         | [] => ["}"%char]
         | (k', v') :: kvs' =>
             ","%char :: quote (String.list_ascii_of_string k') ++ ":"%char :: print v' ++
             members kvs'
         end) kvs
  end.

(** A number literal the scanner accepts as a whole. *)
Definition valid_number (lit : string) : bool :=
  match parse_number (String.list_ascii_of_string lit) with
  | Some (l, []) => bool_decide (l = String.list_ascii_of_string lit)
  | _ => false
  end.

(** Well-formed values: every number literal is valid. *)
Fixpoint wf_json (j : json) : bool :=
  match j with
  | JNumber lit => valid_number lit
  | JArray xs => (fix all (xs : list json) : bool :=
                    match xs with [] => true | y :: ys => wf_json y && all ys end) xs
  | JObject kvs => (fix all (kvs : list (string * json)) : bool :=
                      match kvs with [] => true | (_, v) :: kvs' => wf_json v && all kvs' end) kvs
  | _ => true
  end.

(** The number of nodes: the fuel the parser needs. *)
Fixpoint size (j : json) : nat :=
  match j with
  | JArray xs => S ((fix sum (xs : list json) : nat :=
                       match xs with [] => 0 | y :: ys => size y + sum ys end) xs)
  | JObject kvs => S ((fix sum (kvs : list (string * json)) : nat :=
                         match kvs with [] => 0 | (_, v) :: kvs' => size v + sum kvs' end) kvs)
  | _ => 1
  end.

(** Induction over the nested structure of [json]. *)
Section JsonInd.
Variable P : json -> Prop.
Hypothesis HNull : P JNull.
Hypothesis HBool : forall b, P (JBool b).
Hypothesis HNumber : forall lit, P (JNumber lit).
Hypothesis HString : forall s, P (JString s).
Hypothesis HArray : forall xs, Forall P xs -> P (JArray xs).
Hypothesis HObject : forall kvs, Forall (fun kv => P kv.2) kvs -> P (JObject kvs).

Fixpoint json_ind' (j : json) : P j :=
  match j with
  | JNull => HNull
  | JBool b => HBool b
  | JNumber lit => HNumber lit
  | JString s => HString s
  | JArray xs =>
      HArray xs ((fix go (xs : list json) : Forall P xs :=
                    match xs with
                    | [] => List.Forall_nil _
                    | y :: ys => List.Forall_cons _ _ _ (json_ind' y) (go ys)
                    end) xs)
  | JObject kvs =>
      HObject kvs ((fix go (kvs : list (string * json)) : Forall (fun kv => P kv.2) kvs :=
                      match kvs with
                      | [] => List.Forall_nil _
                      | kv :: kvs' =>
                          List.Forall_cons _ _ _
                            (match kv as kv0 return P kv0.2 with (_, v) => json_ind' v end)
                            (go kvs')
                      end) kvs)
  end.
End JsonInd.

(** What may follow a number literal without extending it. *)
Definition num_stop (t : bytes) : Prop :=
  match t with
  | [] => True
  | c :: _ => is_digit c = false /\ Ascii.eqb c "." = false /\
              Ascii.eqb c "e" = false /\ Ascii.eqb c "E" = false
  end.

(** The inner loops of [print], [size] and [wf_json], named. *)
Definition print_elems : list json -> bytes :=
  fix elems (xs : list json) : bytes :=
    match xs with [] => ["]"%char] | y :: ys => ","%char :: print y ++ elems ys end.

Definition print_members : list (string * json) -> bytes :=
  fix members (kvs : list (string * json)) : bytes :=
    match kvs with
    | [] => ["}"%char]
    | (k', v') :: kvs' =>
        ","%char :: quote (String.list_ascii_of_string k') ++ ":"%char :: print v' ++ members kvs'
    end.

Definition sizes : list json -> nat :=
  fix sum (xs : list json) : nat := match xs with [] => 0 | y :: ys => size y + sum ys end.

Definition size_members : list (string * json) -> nat :=
  fix sum (kvs : list (string * json)) : nat :=
    match kvs with [] => 0 | (_, v) :: kvs' => size v + sum kvs' end.

Definition wf_elems : list json -> bool :=
  fix all (xs : list json) : bool := match xs with [] => true | y :: ys => wf_json y && all ys end.

Definition wf_members : list (string * json) -> bool :=
  fix all (kvs : list (string * json)) : bool :=
    match kvs with [] => true | (_, v) :: kvs' => wf_json v && all kvs' end.

(** What may follow a value inside the text of a value, or after the
    top-level value. *)
Definition value_stop (t : bytes) : Prop :=
  match t with
  | [] => True
  | c :: _ => c = ","%char \/ c = "]"%char \/ c = "}"%char \/ is_ws c = true
  end.

(** What the parser reads back from a value's text with fuel [f]. *)
Definition reads_back (f : nat) (j : json) : Prop :=
  wf_json j = true -> forall t, size j <= f -> value_stop t -> parse_value f (print j ++ t) = Some (j, t).

(** ** Lemmas *)

(** A string of HTML-safe bytes is written between quotes unchanged. *)
Lemma escape_safe (s : string) :
  forallb htmlSafe (String.list_ascii_of_string s) = true -> escape s = s.
Proof.
  induction s as [|c s IH]; [done|]. simpl. intros [Hc Hs]%andb_prop.
  rewrite IH by done. unfold escape_byte. rewrite Hc.
  destruct (128 <=? Ascii.nat_of_ascii c); reflexivity.
Qed.

Lemma escape_app (s t : string) : escape (s +:+ t) = escape s +:+ escape t.
Proof.
  induction s as [|c s IH]; [done|]. rewrite string_app_cons. simpl. rewrite IH.
  by rewrite string_app_assoc.
Qed.


(** ** The parser reads back what the printer writes *)

(** Each escape sequence the encoder writes for a byte decodes to that
    byte (checked on the 256 bytes). *)
Lemma parse_chars_escape_byte c (t : bytes) :
  parse_chars (String.list_ascii_of_string (escape_byte c) ++ t) =
  match parse_chars t with Some (out, tl) => Some (c :: out, tl) | None => None end.
Proof. destruct c as [[] [] [] [] [] [] [] []]; reflexivity. Qed.

Lemma parse_chars_escape (cs t : bytes) :
  parse_chars (escape_bytes cs ++ dq :: t) = Some (cs, t).
Proof.
  induction cs as [|c cs IH]; [reflexivity|].
  unfold escape_bytes. cbn [flat_map]. rewrite <- app_assoc.
  rewrite parse_chars_escape_byte. fold (escape_bytes cs). by rewrite IH.
Qed.

Lemma digits_stop t : num_stop t -> digits t = ([], t).
Proof. destruct t as [|c t]; simpl; [done|]. intros (-> & _). done. Qed.

Lemma digits_app s t d r :
  digits s = (d, r) -> (r = [] -> digits t = ([], t)) -> digits (s ++ t) = (d, r ++ t).
Proof.
  revert d r. induction s as [|c s IH]; intros d r H Ht; simpl in *.
  - injection H as <- <-. by apply Ht.
  - destruct (is_digit c); [|by injection H as <- <-].
    destruct (digits s) as [d' r'] eqn:E. injection H as <- <-.
    by rewrite (IH d' r').
Qed.

Lemma digits1_app s t d r :
  digits1 s = Some (d, r) -> num_stop t -> digits1 (s ++ t) = Some (d, r ++ t).
Proof.
  unfold digits1. intros H Ht. destruct (digits s) as [d0 r0] eqn:E.
  destruct d0 as [|x d0]; [done|]. injection H as <- <-.
  rewrite (digits_app s t (x :: d0) r0); [done..|]. intros _. by apply digits_stop.
Qed.

Lemma num_int_app s t p r :
  num_int s = Some (p, r) -> num_stop t -> num_int (s ++ t) = Some (p, r ++ t).
Proof.
  destruct s as [|c s]; [done|]. simpl. intros H Ht.
  destruct (Ascii.eqb c "0"); [by injection H as <- <-|].
  destruct (is_digit c); [|done]. by apply (digits1_app (c :: s)).
Qed.

Lemma num_frac_app s t p r :
  num_frac s = Some (p, r) -> num_stop t -> num_frac (s ++ t) = Some (p, r ++ t).
Proof.
  destruct s as [|c s]; cbn [app num_frac] in *; intros H Ht.
  - injection H as <- <-. destruct t as [|c t]; [done|]. cbn [num_stop] in Ht.
    destruct Ht as (_ & Hdot & _). cbn [num_frac]. by rewrite Hdot.
  - destruct (Ascii.eqb c "."); [|by injection H as <- <-].
    destruct (digits1 s) as [[d tl']|] eqn:E; [|done]. injection H as <- <-.
    by rewrite (digits1_app s t d tl').
Qed.

Lemma num_exp_app s t p r :
  num_exp s = Some (p, r) -> num_stop t -> num_exp (s ++ t) = Some (p, r ++ t).
Proof.
  destruct s as [|c s]; cbn [app num_exp] in *; intros H Ht.
  - injection H as <- <-. destruct t as [|c t]; [done|]. cbn [num_stop] in Ht.
    destruct Ht as (_ & _ & He & HE). cbn [num_exp]. by rewrite He, HE.
  - destruct (Ascii.eqb c "e" || Ascii.eqb c "E"); [|by injection H as <- <-].
    destruct s as [|c' s]; cbn [app] in *.
    + destruct (digits1 []) as [[d tl2]|] eqn:E; [|done]. done.
    + destruct (Ascii.eqb c' "+" || Ascii.eqb c' "-").
      * destruct (digits1 s) as [[d tl2]|] eqn:E; [|done]. injection H as <- <-.
        by rewrite (digits1_app s t d tl2).
      * destruct (digits1 (c' :: s)) as [[d tl2]|] eqn:E; [|done]. injection H as <- <-.
        change (c' :: s ++ t) with ((c' :: s) ++ t). by rewrite (digits1_app (c' :: s) t d tl2).
Qed.

(** A number that the scanner reads whole from [s] is still read whole
    when a byte that cannot extend it follows. *)
Lemma parse_number_app s t l r :
  parse_number s = Some (l, r) -> num_stop t -> parse_number (s ++ t) = Some (l, r ++ t).
Proof.
  unfold parse_number. intros H Ht.
  assert (Hs : num_sign (s ++ t) = ((num_sign s).1, (num_sign s).2 ++ t)).
  { destruct s as [|c s]; [done|]. simpl. by destruct (Ascii.eqb c "-"). }
  destruct (num_sign s) as [sg s1] eqn:Es. rewrite Hs. simpl.
  destruct (num_int s1) as [[ip s2]|] eqn:Ei; [|done].
  rewrite (num_int_app s1 t ip s2) by done. simpl in *.
  destruct (num_frac s2) as [[fp s3]|] eqn:Ef; [|done].
  rewrite (num_frac_app s2 t fp s3) by done. simpl in *.
  destruct (num_exp s3) as [[ep s4]|] eqn:Ex; [|done].
  rewrite (num_exp_app s3 t ep s4) by done. simpl in *. congruence.
Qed.

Lemma print_array_cons x xs : print (JArray (x :: xs)) = "["%char :: print x ++ print_elems xs.
Proof. reflexivity. Qed.

Lemma print_object_cons k v kvs :
  print (JObject ((k, v) :: kvs)) =
  "{"%char :: quote (String.list_ascii_of_string k) ++ ":"%char :: print v ++ print_members kvs.
Proof. reflexivity. Qed.

Lemma size_pos j : 1 <= size j.
Proof. destruct j; simpl; lia. Qed.

Lemma value_stop_num t : value_stop t -> num_stop t.
Proof.
  destruct t as [|c t]; [done|]. intros [->|[->|[->|Hw]]]; [repeat split..|]. revert Hw.
  destruct c as [[] [] [] [] [] [] [] []]; vm_compute; intros H; first [discriminate | repeat split].
Qed.

Lemma parse_number_head s l r :
  parse_number s = Some (l, r) ->
  exists c s', s = c :: s' /\ (Ascii.eqb c "-" || is_digit c) = true.
Proof.
  unfold parse_number. destruct s as [|c s']; [done|]. intros H. exists c, s'. split; [done|].
  unfold num_sign in H. destruct (Ascii.eqb c "-") eqn:E; [done|]. cbn [orb].
  unfold num_int in H. destruct (Ascii.eqb c "0") eqn:E0.
  - apply Ascii.eqb_eq in E0. subst. reflexivity.
  - destruct (is_digit c); [done|]. discriminate.
Qed.

(** The first byte of a number selects no other branch of the parser
    (checked on the 256 bytes). *)
Lemma number_head_branch c :
  (Ascii.eqb c "-" || is_digit c) = true ->
  is_ws c = false /\ Ascii.eqb c dq = false /\ Ascii.eqb c "[" = false /\
  Ascii.eqb c "{" = false /\ Ascii.eqb c "t" = false /\ Ascii.eqb c "f" = false /\
  Ascii.eqb c "n" = false /\ Ascii.eqb c "]" = false /\ Ascii.eqb c "}" = false.
Proof. destruct c as [[] [] [] [] [] [] [] []]; vm_compute; intros H; try discriminate; tauto. Qed.

Lemma quote_app cs r : quote cs ++ r = dq :: escape_bytes cs ++ dq :: r.
Proof. unfold quote. simpl. by rewrite <- app_assoc. Qed.

Lemma print_elems_stop xs t : value_stop (print_elems xs ++ t).
Proof. destruct xs; simpl; auto. Qed.

Lemma print_members_stop kvs t : value_stop (print_members kvs ++ t).
Proof. destruct kvs as [|[]]; simpl; auto. Qed.

Section ParsePrint.
Variable f : nat.


Lemma parse_elems_print xs : forall x acc g t,
  Forall (reads_back f) (x :: xs) -> wf_elems (x :: xs) = true ->
  sizes (x :: xs) <= f -> length (x :: xs) <= g -> value_stop t ->
  parse_elems (parse_value f) g (print x ++ print_elems xs ++ t) acc = Some (JArray (acc ++ x :: xs), t).
Proof.
  induction xs as [|y ys IH]; intros x acc g t HP Hwf Hsz Hlen Ht;
    (destruct g as [|g]; [simpl in Hlen; lia|]);
    apply Forall_cons_1 in HP as [Hx HP]; cbn [wf_elems] in Hwf; apply andb_prop in Hwf as [Hwx Hwf];
    cbn [sizes] in Hsz; cbn [parse_elems];
    (rewrite Hx; [|done|lia|apply print_elems_stop]); cbn [mbind option_bind].
  - reflexivity.
  - cbn [print_elems app skip_ws is_ws]. simpl.
    rewrite <- app_assoc.
    rewrite (IH y (acc ++ [x]) g t); [by rewrite <- app_assoc|done|done|simpl in *; lia|simpl in *; lia|done].
Qed.

Lemma parse_members_print kvs : forall k v acc g t,
  Forall (fun kv => reads_back f kv.2) ((k, v) :: kvs) -> wf_members ((k, v) :: kvs) = true ->
  size_members ((k, v) :: kvs) <= f -> length ((k, v) :: kvs) <= g -> value_stop t ->
  parse_members (parse_value f) g
    (quote (String.list_ascii_of_string k) ++ ":"%char :: print v ++ print_members kvs ++ t) acc =
  Some (JObject (acc ++ (k, v) :: kvs), t).
Proof.
  induction kvs as [|[k' v'] kvs IH]; intros k v acc g t HP Hwf Hsz Hlen Ht;
    (destruct g as [|g]; [simpl in Hlen; lia|]);
    apply Forall_cons_1 in HP as [Hv HP]; cbn [wf_members] in Hwf; apply andb_prop in Hwf as [Hwv Hwf];
    cbn [size_members] in Hsz; cbn [parse_members]; rewrite quote_app; cbn [skip_ws];
    replace (is_ws dq) with false by reflexivity; rewrite Ascii.eqb_refl, parse_chars_escape;
    cbn [mbind option_bind skip_ws]; replace (is_ws ":"%char) with false by reflexivity; simpl Ascii.eqb;
    cbv iota beta;
    (rewrite Hv; [|done|simpl in *; lia|apply print_members_stop]); cbn [mbind option_bind];
    rewrite String.string_of_list_ascii_of_string.
  - reflexivity.
  - cbn [print_members app skip_ws is_ws]. simpl.
    rewrite <- !app_assoc; cbn [app]; rewrite <- ?app_assoc.
    rewrite <- quote_app.
    rewrite (IH k' v' (acc ++ [(k, v)]) g t); [by rewrite <- app_assoc|done|done|simpl in *; lia|simpl in *; lia|done].
Qed.
End ParsePrint.

Lemma length_le_sizes xs : length xs <= sizes xs.
Proof. induction xs as [|x xs IH]; simpl; [lia|]. pose proof (size_pos x). lia. Qed.

Lemma length_le_size_members kvs : length kvs <= size_members kvs.
Proof. induction kvs as [|[k v] kvs IH]; simpl; [lia|]. pose proof (size_pos v). lia. Qed.

(** A valid number literal: its bytes start with a byte that selects the
    number branch, and the scanner reads it whole before a stop byte. *)
Lemma valid_number_parse lit t :
  valid_number lit = true -> value_stop t ->
  exists c r, String.list_ascii_of_string lit = c :: r /\ (Ascii.eqb c "-" || is_digit c) = true /\
    parse_number (String.list_ascii_of_string lit ++ t) = Some (String.list_ascii_of_string lit, t).
Proof.
  unfold valid_number. intros Hv Ht.
  destruct (parse_number (String.list_ascii_of_string lit)) as [[l [|c' r']]|] eqn:E; try done.
  apply bool_decide_eq_true in Hv. subst l.
  destruct (parse_number_head _ _ _ E) as (c & r & Hs & Hc). exists c, r. repeat split; [done..|].
  by rewrite (parse_number_app _ t _ [] E (value_stop_num t Ht)).
Qed.

(** The text of a well-formed value starts with a byte that
    is neither white space nor a closing bracket. *)
Lemma print_head j :
  wf_json j = true ->
  exists c r, print j = c :: r /\ is_ws c = false /\ Ascii.eqb c "]" = false /\ Ascii.eqb c "}" = false.
Proof.
  intros Hwf. destruct j as [| [] | lit | s | [|x xs] | [|[k v] kvs]]; try by eexists _, _.
  destruct (valid_number_parse lit [] Hwf I) as (c & r & Hs & Hc & _).
  pose proof (number_head_branch c Hc) as (? & _ & _ & _ & _ & _ & _ & ? & ?).
  exists c, r. cbn [print]. by rewrite Hs.
Qed.

(** The parser's first step on each kind of text. *)
Lemma skip_ws_head c r : is_ws c = false -> skip_ws (c :: r) = c :: r.
Proof. simpl. by intros ->. Qed.

Lemma parse_value_string f rest :
  parse_value (S f) (dq :: rest) =
  '(str, tl) ← parse_chars rest; Some (JString (String.string_of_list_ascii str), tl).
Proof. reflexivity. Qed.

Lemma parse_value_array f rest :
  parse_value (S f) ("["%char :: rest) =
  match skip_ws rest with
  | c' :: tl => if Ascii.eqb c' "]" then Some (JArray [], tl) else parse_elems (parse_value f) f rest []
  | [] => None
  end.
Proof. reflexivity. Qed.

Lemma parse_value_object f rest :
  parse_value (S f) ("{"%char :: rest) =
  match skip_ws rest with
  | c' :: tl => if Ascii.eqb c' "}" then Some (JObject [], tl) else parse_members (parse_value f) f rest []
  | [] => None
  end.
Proof. reflexivity. Qed.

Lemma parse_value_number f c rest :
  (Ascii.eqb c "-" || is_digit c) = true ->
  parse_value (S f) (c :: rest) =
  '(lit, tl) ← parse_number (c :: rest); Some (JNumber (String.string_of_list_ascii lit), tl).
Proof.
  intros Hc. pose proof (number_head_branch c Hc) as (Hws & Hdq & Hb & Hc2 & Htr & Hfa & Hnu & _).
  cbn [parse_value]. rewrite skip_ws_head by done. by rewrite Hdq, Hb, Hc2, Htr, Hfa, Hnu.
Qed.

(** The parser reads back, from any fuel at least the value's size, the
    text the printer writes, leaving what follows it. *)
Lemma parse_print j : forall f t,
  wf_json j = true -> size j <= f -> value_stop t -> parse_value f (print j ++ t) = Some (j, t).
Proof.
  induction j as [| b | lit | s | xs IH | kvs IH] using json_ind'; intros f t Hwf Hsz Ht;
    (destruct f as [|f]; [pose proof (size_pos JNull); simpl in Hsz; lia|]).
  - reflexivity.
  - by destruct b.
  - destruct (valid_number_parse lit t Hwf Ht) as (c & r & Hs & Hc & Hp).
    cbn [print]. rewrite Hs in Hp |- *. rewrite <- app_comm_cons, parse_value_number by done.
    rewrite app_comm_cons, Hp. cbn [mbind option_bind].
    rewrite <- Hs, String.string_of_list_ascii_of_string. reflexivity.
  - cbn [print]. rewrite quote_app, parse_value_string, parse_chars_escape.
    cbn [mbind option_bind]. by rewrite String.string_of_list_ascii_of_string.
  - destruct xs as [|x xs]; [reflexivity|].
    change (wf_elems (x :: xs) = true) in Hwf.
    destruct (print_head x) as (c & r & Hpx & Hws & Hcb & _); [by apply andb_prop in Hwf as []|].
    rewrite print_array_cons, <- app_comm_cons, parse_value_array, <- app_assoc, Hpx,
      <- app_comm_cons, skip_ws_head, Hcb by done.
    assert (Hs : sizes (x :: xs) <= f) by (change (S (sizes (x :: xs)) <= S f) in Hsz; lia).
    pose proof (length_le_sizes (x :: xs)).
    rewrite app_comm_cons, <- Hpx, (parse_elems_print f xs x [] f t); [done| |done|done|lia|done].
    eapply Forall_impl; [exact IH|]. intros y Hy. intros Hwy t' Hsy Ht'. by apply Hy.
  - destruct kvs as [|[k v] kvs]; [reflexivity|].
    change (wf_members ((k, v) :: kvs) = true) in Hwf.
    rewrite print_object_cons, <- app_comm_cons, parse_value_object.
    rewrite <- !app_assoc, <- app_comm_cons, <- !app_assoc, quote_app, skip_ws_head by reflexivity.
    replace (Ascii.eqb dq "}") with false by reflexivity.
    assert (Hs : size_members ((k, v) :: kvs) <= f)
      by (change (S (size_members ((k, v) :: kvs)) <= S f) in Hsz; lia).
    pose proof (length_le_size_members ((k, v) :: kvs)).
    rewrite <- quote_app, (parse_members_print f kvs k v [] f t); [done| |done|done|lia|done].
    eapply Forall_impl; [exact IH|]. intros kv Hkv. intros Hwkv t' Hskv Ht'. by apply Hkv.
Qed.

Lemma sizes_le_print_elems xs :
  Forall (fun y => size y <= S (length (print y))) xs -> sizes xs <= length (print_elems xs).
Proof.
  induction xs as [|y ys IH]; intros H; [simpl; lia|].
  apply Forall_cons_1 in H as [Hy H]. specialize (IH H).
  change (size y + sizes ys <= S (length (print y ++ print_elems ys))).
  rewrite length_app. lia.
Qed.

Lemma size_members_le_print kvs :
  Forall (fun kv => size kv.2 <= S (length (print kv.2))) kvs ->
  size_members kvs <= length (print_members kvs).
Proof.
  induction kvs as [|[k v] kvs IH]; intros H; [simpl; lia|].
  apply Forall_cons_1 in H as [Hv H]. specialize (IH H).
  change (size v + size_members kvs <=
          S (length (quote (String.list_ascii_of_string k) ++ ":"%char :: print v ++ print_members kvs))).
  rewrite !length_app. cbn [length]. rewrite !length_app. cbn [snd] in Hv. lia.
Qed.

(** The size of a value is at most one more than the length of its text:
    the fuel [parse] gives is enough. *)
Lemma size_le_print j : size j <= S (length (print j)).
Proof.
  induction j as [| b | lit | s | xs IH | kvs IH] using json_ind'; try (simpl; lia).
  - destruct xs as [|x xs]; [simpl; lia|]. apply Forall_cons_1 in IH as [Hx IH].
    apply sizes_le_print_elems in IH. rewrite print_array_cons.
    change (S (size x + sizes xs) <= S (length ("["%char :: print x ++ print_elems xs))).
    simpl. rewrite length_app. lia.
  - destruct kvs as [|[k v] kvs]; [simpl; lia|]. apply Forall_cons_1 in IH as [Hv IH].
    apply size_members_le_print in IH. rewrite print_object_cons.
    change (S (size v + size_members kvs) <=
            S (length ("{"%char :: quote (String.list_ascii_of_string k) ++
                       ":"%char :: print v ++ print_members kvs))).
    simpl. rewrite !length_app. simpl. rewrite length_app. simpl in Hv. lia.
Qed.

Lemma skip_ws_all ws : forallb is_ws ws = true -> skip_ws ws = [].
Proof. induction ws as [|c ws IH]; [done|]. simpl. intros [-> Hws]%andb_prop. by apply IH. Qed.

(** Round trip: [json.Unmarshal]'s syntax accepts the text of every
    well-formed value followed by any white space, and gives back that
    value; the fuel [S (length input)] of [parse] is enough. *)
Lemma parse_print_ws j ws :
  wf_json j = true -> forallb is_ws ws = true ->
  parse (String.string_of_list_ascii (print j ++ ws)) = Some j.
Proof.
  intros Hwf Hws. unfold parse. rewrite String.list_ascii_of_string_of_list_ascii.
  assert (Hstop : value_stop ws).
  { destruct ws as [|c ws]; [done|]. simpl in Hws. apply andb_prop in Hws as [Hc _]. by do 3 right. }
  assert (Hf : size j <= S (length (print j ++ ws))).
  { pose proof (size_le_print j). rewrite length_app. lia. }
  by rewrite (parse_print j _ ws Hwf Hf Hstop), skip_ws_all.
Qed.

Theorem parse_roundtrip j :
  wf_json j = true -> parse (String.string_of_list_ascii (print j)) = Some j.
Proof. intros Hwf. rewrite <- (app_nil_r (print j)). by apply parse_print_ws. Qed.


(** ** Fuel adequacy

    Every step of the parser consumes input: a string, a number or a
    literal is shorter than what precedes it, and so is what an array or an
    object leaves ([parse_value_shorter]).  Hence the fuel that [parse]
    gives, one more than the length of the input, is never exhausted
    before the input is: any fuel above the length gives the same result
    ([parse_value_fuel], [parse_any_fuel]), and [parse] is encoding/json's
    fuel-free parser on every input. *)

Lemma bind_pair_Some {A B C} (m : option (A * B)) (f : A -> B -> option C) y :
  ('(a, b) ← m; f a b) = Some y -> exists a b, m = Some (a, b) /\ f a b = Some y.
Proof. destruct m as [[a b]|]; cbn; [eauto|done]. Qed.

(** Inverts a successful run of the parser's code into its branches. *)
Ltac parse_inv :=
  repeat match goal with
  | H : (if ?b then _ else _) = Some _ |- _ => destruct b
  | H : mbind _ _ = Some _ |- _ => apply bind_Some in H as (? & ? & H)
  | H : match ?x with _ => _ end = Some _ |- _ => destruct x eqn:?
  | H : None = Some _ |- _ => discriminate H
  end.

Lemma parse_chars_shorter s : forall out tl, parse_chars s = Some (out, tl) -> length tl < length s.
Proof.
  induction s as [s IH] using (induction_ltof1 _ (@length _)). unfold ltof in IH.
  destruct s as [|c rest]; cbn [parse_chars]; [done|]. intros out tl H.
  parse_inv; simplify_eq; try (cbn; lia);
    repeat match goal with
    | Hp : parse_chars ?x = Some (_, _) |- _ => apply IH in Hp; [|cbn [length] in *; lia]
    end; cbn [length] in *; lia.
Qed.

Lemma digits_length s : forall d tl, digits s = (d, tl) -> length d + length tl = length s.
Proof.
  induction s as [|c s IH]; cbn [digits]; intros d tl H; [by injection H as <- <-|].
  destruct (is_digit c); [|by injection H as <- <-].
  destruct (digits s) as [d' tl'] eqn:E. injection H as <- <-. specialize (IH _ _ eq_refl). cbn. lia.
Qed.

Lemma digits1_shorter s d tl : digits1 s = Some (d, tl) -> length tl < length s.
Proof.
  unfold digits1. destruct (digits s) as [d' tl'] eqn:E. apply digits_length in E.
  destruct d'; [done|]. intros H. injection H as <- <-. cbn in E. lia.
Qed.

Lemma parse_number_shorter s lit tl : parse_number s = Some (lit, tl) -> length tl < length s.
Proof.
  unfold parse_number.
  assert (Hs : length (num_sign s).2 <= length s)
    by (destruct s as [|c s]; cbn; [lia|]; destruct (Ascii.eqb c "-"); cbn; lia).
  destruct (num_sign s) as [sg s1]; cbn in Hs. intros H.
  apply bind_pair_Some in H as (ip & s2 & Hi & H).
  apply bind_pair_Some in H as (fp & s3 & Hf & H).
  apply bind_pair_Some in H as (ep & s4 & He & H). injection H as <- <-.
  assert (length s2 < length s1).
  { destruct s1 as [|c s1]; [done|]. cbn [num_int] in Hi.
    destruct (Ascii.eqb c "0"); [injection Hi as <- <-; cbn; lia|].
    destruct (is_digit c); [|done]. by apply digits1_shorter in Hi. }
  assert (length s3 <= length s2).
  { destruct s2 as [|c s2]; cbn [num_frac] in Hf; [injection Hf as <- <-; done|].
    destruct (Ascii.eqb c "."); [|injection Hf as <- <-; done].
    apply bind_pair_Some in Hf as (d & t & Hd & Hf). injection Hf as <- <-.
    apply digits1_shorter in Hd. cbn. lia. }
  assert (length s4 <= length s3).
  { destruct s3 as [|c s3]; cbn [num_exp] in He; [injection He as <- <-; done|].
    destruct (_ || _); [|injection He as <- <-; done].
    destruct s3 as [|c' s3]; [by cbv beta iota zeta in He|].
    destruct (_ || _); cbv beta iota zeta in He;
      apply bind_pair_Some in He as (d & t & Hd & He); injection He as <- <-;
      apply digits1_shorter in Hd; cbn [length] in *; lia. }
  lia.
Qed.

Lemma lit_prefix_shorter lit s t : lit ≠ [] -> lit_prefix lit s = Some t -> length t < length s.
Proof.
  unfold lit_prefix. intros Hl H. case_decide as Hp; [|done]. injection H as <-.
  rewrite length_drop. apply (f_equal length) in Hp. rewrite length_take in Hp.
  assert (length lit <= length s) by (rewrite <- Hp; apply Nat.le_min_r).
  destruct lit; [done|]. cbn [length] in *. lia.
Qed.

Lemma skip_ws_le s : length (skip_ws s) <= length s.
Proof. induction s as [|c s IH]; cbn; [done|]. destruct (is_ws c); cbn; lia. Qed.

Lemma skip_ws_cons_le s d t : skip_ws s = d :: t -> length t < length s.
Proof. intros E. pose proof (skip_ws_le s) as Hl. rewrite E in Hl. cbn in Hl. lia. Qed.

Section Containers.
Context (pv : bytes -> option (json * bytes)).
Context (Hpv : forall t v tl, pv t = Some (v, tl) -> length tl < length t).

Lemma parse_elems_shorter g : forall s acc v tl,
  parse_elems pv g s acc = Some (v, tl) -> length tl < length s.
Proof.
  induction g as [|g IH]; intros s acc v tl H; cbn [parse_elems] in H; [done|].
  apply bind_Some in H as ([x t] & Hx & H). apply Hpv in Hx.
  destruct (skip_ws t) as [|d t'] eqn:Ew; [done|]. apply skip_ws_cons_le in Ew.
  destruct (Ascii.eqb d ","); [apply IH in H; lia|].
  destruct (Ascii.eqb d "]"); [|done]. injection H as <- <-. lia.
Qed.

Lemma parse_members_shorter g : forall s acc v tl,
  parse_members pv g s acc = Some (v, tl) -> length tl < length s.
Proof.
  induction g as [|g IH]; intros s acc v tl H; cbn [parse_members] in H; [done|].
  destruct (skip_ws s) as [|q s1] eqn:E1; [done|]. apply skip_ws_cons_le in E1.
  destruct (Ascii.eqb q dq); [|done].
  apply bind_Some in H as ([k s2] & Hk & H). apply parse_chars_shorter in Hk.
  destruct (skip_ws s2) as [|colon s3] eqn:E3; [done|]. apply skip_ws_cons_le in E3.
  destruct (Ascii.eqb colon ":"); [|done].
  apply bind_Some in H as ([x t] & Hx & H). apply Hpv in Hx.
  destruct (skip_ws t) as [|d t'] eqn:Ew; [done|]. apply skip_ws_cons_le in Ew.
  destruct (Ascii.eqb d ","); [apply IH in H; lia|].
  destruct (Ascii.eqb d "}"); [|done]. injection H as <- <-. lia.
Qed.

(** Two value parsers that agree on every input of at most [N] bytes give
    the same arrays and objects on such inputs, whatever the counters,
    once these exceed the length of the input. *)
Context (pv' : bytes -> option (json * bytes)) (N : nat).
Context (Hagree : forall t, length t <= N -> pv t = pv' t).

Lemma parse_elems_congr n : forall m s acc,
  length s <= N -> length s < n -> length s < m ->
  parse_elems pv n s acc = parse_elems pv' m s acc.
Proof.
  induction n as [|n IH]; intros [|m] s acc HN Hn Hm; try lia. cbn [parse_elems].
  destruct (pv s) as [[x t]|] eqn:Hx; rewrite <- Hagree, Hx by done; [cbn|done].
  apply Hpv in Hx.
  destruct (skip_ws t) as [|d t'] eqn:Ew; [done|]. apply skip_ws_cons_le in Ew.
  destruct (Ascii.eqb d ","); [apply IH; lia|done].
Qed.

Lemma parse_members_congr n : forall m s acc,
  length s <= N -> length s < n -> length s < m ->
  parse_members pv n s acc = parse_members pv' m s acc.
Proof.
  induction n as [|n IH]; intros [|m] s acc HN Hn Hm; try lia. cbn [parse_members].
  destruct (skip_ws s) as [|q s1] eqn:E1; [done|]. apply skip_ws_cons_le in E1.
  destruct (Ascii.eqb q dq); [|done].
  destruct (parse_chars s1) as [[k s2]|] eqn:Hk; [cbn|done]. apply parse_chars_shorter in Hk.
  destruct (skip_ws s2) as [|colon s3] eqn:E3; [done|]. apply skip_ws_cons_le in E3.
  destruct (Ascii.eqb colon ":"); [|done].
  destruct (pv s3) as [[x t]|] eqn:Hx; rewrite <- Hagree, Hx by lia; [cbn|done].
  apply Hpv in Hx.
  destruct (skip_ws t) as [|d t'] eqn:Ew; [done|]. apply skip_ws_cons_le in Ew.
  destruct (Ascii.eqb d ","); [apply IH; lia|done].
Qed.
End Containers.

Lemma parse_value_shorter f : forall s v tl, parse_value f s = Some (v, tl) -> length tl < length s.
Proof.
  induction f as [|f IH]; intros s v tl H; cbn [parse_value] in H; [done|].
  destruct (skip_ws s) as [|c rest] eqn:Ew; [done|]. apply skip_ws_cons_le in Ew.
  assert (Hl : forall lit, lit ≠ [] -> forall t, lit_prefix lit (c :: rest) = Some t -> length t < length s)
    by (intros lit Hn t Ht; apply lit_prefix_shorter in Ht; [cbn in *; lia|done]).
  parse_inv; simplify_eq;
    repeat match goal with
    | Hp : parse_chars _ = Some (_, _) |- _ => apply parse_chars_shorter in Hp
    | Hp : parse_number _ = Some (_, _) |- _ => apply parse_number_shorter in Hp
    | Hp : lit_prefix _ _ = Some _ |- _ => apply Hl in Hp; [|done]
    | Hp : parse_elems _ _ _ _ = Some _ |- _ => apply parse_elems_shorter in Hp; [|exact IH]
    | Hp : parse_members _ _ _ _ = Some _ |- _ => apply parse_members_shorter in Hp; [|exact IH]
    | Hp : skip_ws _ = _ :: _ |- _ => apply skip_ws_cons_le in Hp
    end; cbn [length] in *; lia.
Qed.

(** Fuel adequacy: above the length of the input, the fuel does not
    change the result of [parse_value]. *)
Lemma parse_value_fuel f : forall g s,
  length s < f -> length s < g -> parse_value f s = parse_value g s.
Proof.
  induction f as [|f IH]; intros [|g] s Hf Hg; try lia. cbn [parse_value].
  destruct (skip_ws s) as [|c rest] eqn:Ew; [done|]. apply skip_ws_cons_le in Ew.
  destruct (Ascii.eqb c dq); [done|].
  assert (Hagree : forall t, length t <= length rest -> parse_value f t = parse_value g t)
    by (intros t Ht; apply IH; lia).
  destruct (Ascii.eqb c "[").
  { destruct (skip_ws rest) as [|c' tl]; [done|]. destruct (Ascii.eqb c' "]"); [done|].
    apply (parse_elems_congr _ (parse_value_shorter f) _ (length rest)); auto; lia. }
  destruct (Ascii.eqb c "{"); [|done].
  destruct (skip_ws rest) as [|c' tl]; [done|]. destruct (Ascii.eqb c' "}"); [done|].
  apply (parse_members_congr _ (parse_value_shorter f) _ (length rest)); auto; lia.
Qed.

Lemma parse_any_fuel input f :
  length (String.list_ascii_of_string input) < f ->
  parse input = match parse_value f (String.list_ascii_of_string input) with
                | Some (v, rest) => match skip_ws rest with [] => Some v | _ => None end
                | None => None
                end.
Proof.
  intros H. unfold parse.
  by rewrite (parse_value_fuel f (S (length (String.list_ascii_of_string input)))) by lia.
Qed.
