(* ===== verification/UrlQuery.v ===== *)
(** * net/url: query strings as [r.URL.Query()] reads them

    [Values] is [url.Values] ([map[string][]string]).  [ParseQuery] is
    net/url's [parseQuery] of the Go releases the repository was built with
    (before Go 1.17, both [&] and [;] separate pairs): pairs are split at
    the first [=], key and value are unescaped by [QueryUnescape], a pair
    that fails to unescape is skipped, and values are appended in order.
    [Query] drops the error, as [URL.Query] does, and [Get] returns the
    first value of a key or the empty string.

    The client side is here too: [QueryEscape] ([escape] in the mode
    [encodeQueryComponent]: unreserved bytes kept, space as [+], others as
    [%XX]) and [Values.Encode] (keys in byte order, each key's values in
    order, pairs joined by [&]).  [Query_Encode] shows that the server
    reads back what a client encodes. *)

From S2P Require Import Prelude.
From stdpp Require Import sorting.


Local Open Scope string_scope.
Local Open Scope nat_scope.

Abbreviation Values := (gmap string (list string)).

(** ** Unescaping *)

Definition ishex (c : ascii) : bool :=
  let n := nat_of_ascii c in
  ((48 <=? n) && (n <=? 57)) || ((97 <=? n) && (n <=? 102)) || ((65 <=? n) && (n <=? 70)).

Definition unhex (c : ascii) : nat :=
  let n := nat_of_ascii c in
  if (48 <=? n) && (n <=? 57) then n - 48
  else if (97 <=? n) && (n <=? 102) then n - 87
  else if (65 <=? n) && (n <=? 70) then n - 55
  else 0.

(** [unescape(s, encodeQueryComponent)]: [%XX] decodes a byte, [+] is a
    space, a [%] not followed by two hex digits is an [EscapeError]. *)
Fixpoint QueryUnescape (s : string) : option string :=
  match s with
  | EmptyString => Some EmptyString
  | String c rest =>
      if Ascii.eqb c "%"%char then
        match rest with
        | String h1 (String h2 rest') =>
            if ishex h1 && ishex h2
            then String (ascii_of_nat (16 * unhex h1 + unhex h2)) <$> QueryUnescape rest'
            else None
        | _ => None
        end
      else if Ascii.eqb c "+"%char then String " "%char <$> QueryUnescape rest
      else String c <$> QueryUnescape rest
  end.

(** ** Splitting *)

(** The segments between separators, in order ([strings.IndexAny] with
    the separators, repeated). *)
Fixpoint split_on (sep : ascii -> bool) (s : string) : list string :=
  match s with
  | EmptyString => [EmptyString]
  | String c rest =>
      if sep c then EmptyString :: split_on sep rest
      else match split_on sep rest with
           | [] => [String c EmptyString]
           | seg :: segs => String c seg :: segs
           end
  end.

Definition is_pair_sep (c : ascii) : bool := Ascii.eqb c "&"%char || Ascii.eqb c ";"%char.

(** [key, value] split at the first [=] ([strings.Index(key, "=")]); no
    [=] gives the empty value. *)
Fixpoint split_eq (s : string) : string * string :=
  match s with
  | EmptyString => (EmptyString, EmptyString)
  | String c rest =>
      if Ascii.eqb c "="%char then (EmptyString, rest)
      else let '(k, v) := split_eq rest in (String c k, v)
  end.

(** ** parseQuery *)

(** [m[key] = append(m[key], value)]. *)
Definition values_add (k v : string) (m : Values) : Values :=
  <[k := (default [] (m !! k) ++ [v])%list]> m.

(** One pair of the loop body: skipped when empty or when unescaping
    fails; the first unescaping error is kept. *)
Definition parse_pair (seg : string) (acc : Values * option string) : Values * option string :=
  let '(m, err) := acc in
  if String.eqb seg "" then (m, err)
  else
    let '(k, v) := split_eq seg in
    match QueryUnescape k, QueryUnescape v with
    | Some k', Some v' => (values_add k' v' m, err)
    | _, _ => (m, match err with Some e => Some e | None => Some seg end)
    end.

Definition ParseQuery (query : string) : Values * option string :=
  fold_left (fun acc seg => parse_pair seg acc) (split_on is_pair_sep query) (∅, None).

(** [u.Query()]: the values, the error dropped. *)
Definition Query (rawquery : string) : Values := (ParseQuery rawquery).1.

(** [v.Get(key)]. *)
Definition Get (v : Values) (key : string) : string :=
  match v !! key with
  | Some (x :: _) => x
  | _ => EmptyString
  end.


(** ** The decoded pairs, and what [Get] returns *)

(** The pairs [parseQuery] keeps, in order. *)
Definition decode_pair (seg : string) : option (string * string) :=
  if String.eqb seg "" then None
  else
    let '(k, v) := split_eq seg in
    match QueryUnescape k, QueryUnescape v with
    | Some k', Some v' => Some (k', v')
    | _, _ => None
    end.

Fixpoint decode_pairs (segs : list string) : list (string * string) :=
  match segs with
  | [] => []
  | seg :: segs' =>
      match decode_pair seg with
      | Some p => p :: decode_pairs segs'
      | None => decode_pairs segs'
      end
  end.

Definition query_pairs (query : string) : list (string * string) :=
  decode_pairs (split_on is_pair_sep query).

(** ** Escaping: [QueryEscape] and [Values.Encode]

    What a client of the agent uses to build the query string. *)

Definition upperhex (n : nat) : ascii :=
  match String.get n "0123456789ABCDEF" with Some c => c | None => "0"%char end.

(** [shouldEscape(c, encodeQueryComponent)]: every byte but the
    unreserved ones (letters, digits, [-], [_], [.], [~]). *)
Definition shouldEscape (c : ascii) : bool :=
  let n := nat_of_ascii c in
  negb (((97 <=? n) && (n <=? 122)) || ((65 <=? n) && (n <=? 90)) || ((48 <=? n) && (n <=? 57)) ||
        Ascii.eqb c "-"%char || Ascii.eqb c "_"%char || Ascii.eqb c "."%char || Ascii.eqb c "~"%char).

(** The bytes [escape(s, encodeQueryComponent)] writes for one byte: a
    space as [+], any other escaped byte as [%XX] in upper-case hex. *)
Definition escape_query_byte (c : ascii) : string :=
  if shouldEscape c then
    if Ascii.eqb c " "%char then "+"
    else String "%"%char (String (upperhex (nat_of_ascii c / 16))
                            (String (upperhex (nat_of_ascii c mod 16)) EmptyString))
  else String c EmptyString.

Fixpoint QueryEscape (s : string) : string :=
  match s with
  | EmptyString => EmptyString
  | String c s' => escape_query_byte c +:+ QueryEscape s'
  end.

(** A byte that neither separates pairs nor key from value. *)
Definition sep_free (c : ascii) : bool := negb (is_pair_sep c || Ascii.eqb c "="%char).

(** [keyEscaped + "=" + QueryEscape(v)]. *)
Definition encode_pair (p : string * string) : string :=
  QueryEscape p.1 +:+ String "="%char (QueryEscape p.2).

(** The pairs written into one buffer, an [&] before each but the first. *)
Fixpoint join_amp (segs : list string) : string :=
  match segs with
  | [] => EmptyString
  | [seg] => seg
  | seg :: segs' => seg +:+ String "&"%char (join_amp segs')
  end.

(** [sort.Strings(keys)]: byte-wise order of strings. *)
Definition key_le (a b : string) : Prop := String.leb a b = true.

#[export] Instance key_le_dec : RelDecision key_le :=
  fun a b => decide (String.leb a b = true).

(** [v.Encode()]: the keys in sorted order, each with its values in
    order. *)
Definition Encode (v : Values) : string :=
  join_amp (map encode_pair
    (flat_map (fun k => map (pair k) (default [] (v !! k)))
              (merge_sort key_le (map fst (map_to_list v))))).

Lemma parse_pair_fst seg m e :
  (parse_pair seg (m, e)).1 =
  match decode_pair seg with Some (k, v) => values_add k v m | None => m end.
Proof.
  unfold parse_pair, decode_pair. destruct (String.eqb seg ""); [done|].
  destruct (split_eq seg) as [k v].
  by destruct (QueryUnescape k), (QueryUnescape v).
Qed.

Lemma parse_fold_fst segs m e :
  (fold_left (fun acc seg => parse_pair seg acc) segs (m, e)).1 =
  fold_left (fun m p => values_add p.1 p.2 m) (decode_pairs segs) m.
Proof.
  revert m e. induction segs as [|seg segs IH]; intros m e; [done|].
  cbn [fold_left decode_pairs]. destruct (parse_pair seg (m, e)) as [m' e'] eqn:Hp.
  pose proof (parse_pair_fst seg m e) as Hf. rewrite Hp in Hf. simpl in Hf.
  rewrite IH, Hf. by destruct (decode_pair seg) as [[k v]|].
Qed.

(** The values of a key after appending pairs: the old ones, then the
    values of the pairs with that key, in order. *)
Lemma values_add_fold_lookup ps m k :
  default [] (fold_left (fun m p => values_add p.1 p.2 m) ps m !! k) =
  (default [] (m !! k) ++ map snd (filter (fun p => p.1 = k) ps))%list.
Proof.
  revert m. induction ps as [|[k' v'] ps IH]; intros m; simpl.
  - by rewrite app_nil_r.
  - rewrite IH. unfold values_add. rewrite filter_cons. simpl.
    destruct (decide (k' = k)) as [->|Hne].
    + rewrite lookup_insert_eq. simpl. by rewrite <- app_assoc.
    + by rewrite lookup_insert_ne.
Qed.

Lemma Get_default v k :
  Get v k = match default [] (v !! k) with x :: _ => x | [] => EmptyString end.
Proof. unfold Get. by destruct (v !! k) as [[|x xs]|]. Qed.

(** C13: [r.URL.Query().Get(key)] is the value of the first pair of the
    query string whose decoded key is [key] (pairs that fail to decode
    skipped), or the empty string when there is none. *)
Theorem Get_Query_first q k :
  Get (Query q) k =
  match filter (fun p => p.1 = k) (query_pairs q) with
  | (_, v) :: _ => v
  | [] => EmptyString
  end.
Proof.
  rewrite Get_default. unfold Query, ParseQuery.
  rewrite parse_fold_fst, values_add_fold_lookup. simpl.
  unfold query_pairs. by destruct (filter _ _) as [|[k' v] ps].
Qed.

(** ** Escaping round trip *)

(** The two hex digits [escape] writes for a byte decode to that byte
    (checked on the 256 bytes). *)
Lemma upperhex_unhex c :
  ishex (upperhex (nat_of_ascii c / 16)) = true /\ ishex (upperhex (nat_of_ascii c mod 16)) = true /\
  ascii_of_nat (16 * unhex (upperhex (nat_of_ascii c / 16)) + unhex (upperhex (nat_of_ascii c mod 16))) = c.
Proof. destruct c as [[] [] [] [] [] [] [] []]; vm_compute; auto. Qed.

(** [%] and [+] are always escaped (checked on the 256 bytes). *)
Lemma unreserved_plain c :
  shouldEscape c = false -> Ascii.eqb c "%"%char = false /\ Ascii.eqb c "+"%char = false.
Proof. destruct c as [[] [] [] [] [] [] [] []]; vm_compute; intros H; first [discriminate | auto]. Qed.

(** Each escape sequence decodes to its byte. *)
Lemma QueryUnescape_escape_byte c t :
  QueryUnescape (escape_query_byte c +:+ t) = String c <$> QueryUnescape t.
Proof.
  unfold escape_query_byte. destruct (shouldEscape c) eqn:E.
  - destruct (Ascii.eqb c " "%char) eqn:Es.
    + apply Ascii.eqb_eq in Es as ->. reflexivity.
    + rewrite !string_app_cons, string_app_nil_l. cbn [QueryUnescape].
      destruct (upperhex_unhex c) as (H1 & H2 & H3). rewrite H1, H2, H3. reflexivity.
  - rewrite string_app_cons, string_app_nil_l. cbn [QueryUnescape].
    destruct (unreserved_plain c E) as [-> ->]. reflexivity.
Qed.

Lemma QueryUnescape_QueryEscape s : QueryUnescape (QueryEscape s) = Some s.
Proof.
  induction s as [|c s IH]; [done|]. cbn [QueryEscape].
  by rewrite QueryUnescape_escape_byte, IH.
Qed.

(** An escaped byte never separates (checked on the 256 bytes). *)
Lemma escape_query_byte_sep_free c :
  forallb sep_free (String.list_ascii_of_string (escape_query_byte c)) = true.
Proof. destruct c as [[] [] [] [] [] [] [] []]; vm_compute; reflexivity. Qed.

Lemma QueryEscape_sep_free s : forallb sep_free (String.list_ascii_of_string (QueryEscape s)) = true.
Proof.
  induction s as [|c s IH]; [done|]. cbn [QueryEscape].
  rewrite list_ascii_of_string_app, forallb_app, IH, escape_query_byte_sep_free. done.
Qed.

Lemma split_eq_sep_free a b :
  forallb sep_free (String.list_ascii_of_string a) = true -> split_eq (a +:+ String "="%char b) = (a, b).
Proof.
  induction a as [|c a IH]; [done|]. cbn [String.list_ascii_of_string forallb].
  intros [Hc Ha]%andb_prop. rewrite string_app_cons. cbn [split_eq]. rewrite IH by done.
  unfold sep_free in Hc. destruct (Ascii.eqb c "="%char); [by rewrite orb_true_r in Hc|done].
Qed.

Lemma split_on_sep_free a :
  forallb (fun c => negb (is_pair_sep c)) (String.list_ascii_of_string a) = true ->
  split_on is_pair_sep a = [a].
Proof.
  induction a as [|c a IH]; [done|]. cbn [String.list_ascii_of_string forallb].
  intros [Hc Ha]%andb_prop. cbn [split_on]. rewrite IH by done. by destruct (is_pair_sep c).
Qed.

Lemma split_on_amp a b :
  forallb (fun c => negb (is_pair_sep c)) (String.list_ascii_of_string a) = true ->
  split_on is_pair_sep (a +:+ String "&"%char b) = a :: split_on is_pair_sep b.
Proof.
  induction a as [|c a IH]; [done|]. cbn [String.list_ascii_of_string forallb].
  intros [Hc Ha]%andb_prop. rewrite string_app_cons. cbn [split_on]. rewrite IH by done.
  by destruct (is_pair_sep c).
Qed.

Lemma sep_free_no_pair_sep l :
  forallb sep_free l = true -> forallb (fun c => negb (is_pair_sep c)) l = true.
Proof.
  induction l as [|c l IH]; [done|]. cbn [forallb]. intros [Hc Hl]%andb_prop.
  rewrite IH by done. unfold sep_free in Hc. by destruct (is_pair_sep c).
Qed.

Lemma encode_pair_no_pair_sep p :
  forallb (fun c => negb (is_pair_sep c)) (String.list_ascii_of_string (encode_pair p)) = true.
Proof.
  unfold encode_pair. rewrite list_ascii_of_string_app. cbn [String.list_ascii_of_string].
  rewrite forallb_app. cbn [forallb].
  by rewrite !sep_free_no_pair_sep by apply QueryEscape_sep_free.
Qed.

Lemma split_join_amp ps :
  ps <> [] -> split_on is_pair_sep (join_amp (map encode_pair ps)) = map encode_pair ps.
Proof.
  induction ps as [|p ps IH]; intros Hne; [by destruct Hne|].
  destruct ps as [|q ps].
  - apply split_on_sep_free, encode_pair_no_pair_sep.
  - change (join_amp (map encode_pair (p :: q :: ps)))
      with (encode_pair p +:+ String "&"%char (join_amp (map encode_pair (q :: ps)))).
    rewrite split_on_amp by apply encode_pair_no_pair_sep. by rewrite IH.
Qed.

Lemma decode_pair_encode p : decode_pair (encode_pair p) = Some p.
Proof.
  destruct p as [k v]. unfold decode_pair, encode_pair. cbn [fst snd].
  replace (String.eqb _ "") with false by (by destruct (QueryEscape k)).
  rewrite split_eq_sep_free by apply QueryEscape_sep_free.
  by rewrite !QueryUnescape_QueryEscape.
Qed.

(** Pairs written by [Encode]'s loop are read back by [parseQuery]. *)
Lemma query_pairs_encode ps : query_pairs (join_amp (map encode_pair ps)) = ps.
Proof.
  destruct ps as [|p ps]; [reflexivity|]. unfold query_pairs.
  rewrite split_join_amp by done. generalize (p :: ps). clear p ps.
  induction l as [|p ps IH]; [done|]. cbn [map decode_pairs]. by rewrite decode_pair_encode, IH.
Qed.

(** The entry of a key after appending pairs. *)
Lemma values_add_fold_lookup_entry ps m k :
  fold_left (fun m p => values_add p.1 p.2 m) ps m !! k =
  match filter (fun p => p.1 = k) ps with
  | [] => m !! k
  | _ => Some (default [] (m !! k) ++ map snd (filter (fun p => p.1 = k) ps))%list
  end.
Proof.
  revert m. induction ps as [|[k' v'] ps IH]; intros m; [done|]. cbn [fold_left].
  rewrite IH, filter_cons. cbn [fst snd]. unfold values_add.
  destruct (decide (k' = k)) as [->|Hne].
  - rewrite lookup_insert_eq. cbn [map default].
    destruct (filter _ ps); [done|]. unfold id. cbn [snd]. by rewrite <- app_assoc.
  - by rewrite lookup_insert_ne.
Qed.

Lemma filter_map_pair k' k (vs : list string) :
  filter (fun p : string * string => p.1 = k) (map (pair k') vs) =
  if decide (k' = k) then map (pair k') vs else [].
Proof.
  induction vs as [|x vs IH]; [by case_decide|]. cbn [map]. rewrite filter_cons, IH. cbn [fst].
  by case_decide.
Qed.

(** With distinct keys, the pairs of one key are the values of that key. *)
Lemma filter_flat_map_pairs (f : string -> list string) ks k :
  NoDup ks ->
  filter (fun p : string * string => p.1 = k) (flat_map (fun k' => map (pair k') (f k')) ks) =
  if decide (k ∈ ks) then map (pair k) (f k) else [].
Proof.
  induction ks as [|k' ks IH]; intros Hnd; [by rewrite decide_False by set_solver|]. apply NoDup_cons in Hnd as [Hk' Hnd].
  cbn [flat_map]. rewrite filter_app, filter_map_pair, IH by done.
  destruct (decide (k' = k)) as [->|Hne].
  - rewrite (decide_False (P := k ∈ ks)), (decide_True (P := k ∈ k :: ks)) by set_solver.
    apply app_nil_r.
  - by rewrite (decide_ext (k ∈ k' :: ks) (k ∈ ks)) by set_solver.
Qed.

Lemma Encode_keys (v : Values) k : k ∈ merge_sort key_le (map_to_list v).*1 <-> is_Some (v !! k).
Proof.
  rewrite (merge_sort_Permutation _ _), list_elem_of_fmap. split.
  - intros ([k' x] & -> & Hin). apply elem_of_map_to_list in Hin. by exists x.
  - intros [x Hx]. exists (k, x). split; [done|]. by apply elem_of_map_to_list.
Qed.

Lemma Encode_keys_NoDup (v : Values) : NoDup (merge_sort key_le (map_to_list v).*1).
Proof. rewrite (merge_sort_Permutation _ _). apply NoDup_fst_map_to_list. Qed.

Lemma map_snd_pair (k : string) (vs : list string) : map snd (map (pair k) vs) = vs.
Proof. rewrite map_map. apply map_id. Qed.

(** [parseQuery] reads back the pairs [Encode] writes. *)
Lemma Encode_read_back (v : Values) :
  map_Forall (fun _ vs => vs <> []) v -> Query (Encode v) = v.
Proof.
  intros Hne. apply map_eq. intros k. unfold Query, ParseQuery, Encode.
  rewrite parse_fold_fst.
  change (decode_pairs (split_on is_pair_sep ?q)) with (query_pairs q).
  rewrite query_pairs_encode, values_add_fold_lookup_entry,
    filter_flat_map_pairs by apply Encode_keys_NoDup.
  destruct (v !! k) as [vs|] eqn:Hk.
  - rewrite decide_True by (apply Encode_keys; by eexists).
    destruct vs as [|x xs]; [by apply Hne in Hk|].
    rewrite lookup_empty. cbn [default app]. by rewrite map_snd_pair.
  - rewrite decide_False by (rewrite Encode_keys, Hk; by intros [? ?]).
    by rewrite lookup_empty.
Qed.

(** C17: round trip of the query string.  The query [url.Values.Encode]
    writes for a map of values (every key with at least one value) is read
    back by [r.URL.Query()] as that same map: keys and values with any
    bytes, including [&], [;], [=], [%], [+] and spaces, arrive unchanged. *)
Theorem Query_Encode (v : Values) :
  map_Forall (fun _ vs => vs <> []) v -> Query (Encode v) = v.
Proof. apply Encode_read_back. Qed.

Lemma Query_Encode_witness :
  map_Forall (fun _ vs => vs <> []) (<["eventKey" := ["a b&c=d;%+"; "x"]]> (<["b" := ["~"]]> ∅) : Values) /\
  Query (Encode (<["eventKey" := ["a b&c=d;%+"; "x"]]> (<["b" := ["~"]]> ∅))) =
  <["eventKey" := ["a b&c=d;%+"; "x"]]> (<["b" := ["~"]]> ∅).
Proof.
  assert (H : map_Forall (fun _ vs => vs <> [])
                (<["eventKey" := ["a b&c=d;%+"; "x"]]> (<["b" := ["~"]]> ∅) : Values))
    by (apply (bool_decide_unpack _); vm_compute; reflexivity).
  split; [exact H | apply Query_Encode, H].
Defined.

(** The event key a client sends with [url.Values{"eventKey": {k}}.Encode()]
    is the one the handler reads. *)
Lemma Get_Query_Encode_single key x :
  Get (Query (Encode {[key := [x]]})) key = x.
Proof.
  rewrite Encode_read_back by (apply map_Forall_singleton; done).
  unfold Get. by rewrite lookup_singleton_eq.
Qed.
