(* ===== verification/GoDecode.v ===== *)
(** * encoding/json: decoding a JSON value into a Go struct

    [Unmarshal_struct j v] is what [json.Unmarshal] does to a struct [v]
    once the input has been parsed to [j]:
    - [null] leaves the struct unchanged;
    - an object sets, key by key in source order, the field the key names:
      the exported field of that exact name, or else the first exported
      field whose name equals the key up to case ([strings.EqualFold]);
      keys that name no exported field are ignored;  a value of the wrong
      type for its field leaves the field unchanged and the first such
      [UnmarshalTypeError] is returned after the whole object is decoded;
    - any other value is an [UnmarshalTypeError] and changes nothing.
    Unexported fields (whose name does not start with an upper-case letter)
    are invisible to encoding/json.  The fields the handler declares are
    strings and [map[string]interface{}]: a string field takes a JSON
    string ([null] is a no-op), a map field takes an object, merged into
    the existing map (a nil map is allocated first; a later duplicate key
    wins), and [null] sets it to nil.

    Case folding and exportedness are modelled on ASCII letters. *)

From S2P Require Import Prelude Json.


Local Open Scope string_scope.
Local Open Scope nat_scope.

Inductive FieldKind := KString | KMapAny.

Record FieldDecl := { fd_name : string; fd_kind : FieldKind }.

(** A [map[string]interface{}] value: [None] is the nil map. *)
Abbreviation GoMap := (option (gmap string json)).

Inductive FieldVal := FVString (s : string) | FVMap (m : GoMap).

(** A Go struct type, seen through reflection: its declared fields and
    the field get/set encoding/json uses. *)
Class GoStruct (T : Type) := {
  struct_name : string;
  struct_fields : list FieldDecl;
  get_field : T -> string -> FieldVal;
  set_field : T -> string -> FieldVal -> T
}.

(** ** Names *)

Definition is_upper (c : ascii) : bool :=
  let n := nat_of_ascii c in (65 <=? n) && (n <=? 90).

(** [token.IsExported]: the name starts with an upper-case letter. *)
Definition is_exported (name : string) : bool :=
  match name with
  | EmptyString => false
  | String c _ => is_upper c
  end.

Definition ascii_lower (c : ascii) : ascii :=
  if is_upper c then ascii_of_nat (nat_of_ascii c + 32) else c.

Fixpoint string_lower (s : string) : string :=
  match s with
  | EmptyString => EmptyString
  | String c s' => String (ascii_lower c) (string_lower s')
  end.

Definition EqualFold (s t : string) : bool := String.eqb (string_lower s) (string_lower t).

(** The fields encoding/json sees ([cachedTypeFields]): the exported ones. *)
Definition visible_fields (fs : list FieldDecl) : list FieldDecl :=
  filter (fun fd => is_exported (fd_name fd)) fs.

(** The field a key selects: exact name first, then case-folded. *)
Definition find_field (fs : list FieldDecl) (key : string) : option FieldDecl :=
  let vis := visible_fields fs in
  match list_find (fun fd => fd_name fd = key) vis with
  | Some (_, fd) => Some fd
  | None =>
      match list_find (fun fd => EqualFold (fd_name fd) key = true) vis with
      | Some (_, fd) => Some fd
      | None => None
      end
  end.

(** ** Values *)

Definition json_kind (j : json) : string :=
  match j with
  | JNull => "null" | JBool _ => "bool" | JNumber _ => "number"
  | JString _ => "string" | JArray _ => "array" | JObject _ => "object"
  end.

Definition kind_name (k : FieldKind) : string :=
  match k with KString => "string" | KMapAny => "map[string]interface {}" end.

(** A Go map decoded from an object: inserted left to right, so a later
    duplicate key overwrites an earlier one. *)
Definition map_of_object (m : gmap string json) (kvs : list (string * json)) : gmap string json :=
  fold_left (fun m '(k, x) => <[k := x]> m) kvs m.

(** Decoding one JSON value into a field of kind [k] holding [cur]. *)
Definition decode_field (sname : string) (fd : FieldDecl) (cur : FieldVal) (j : json)
    : FieldVal * option GoError :=
  let type_error := Errorf ("json: cannot unmarshal " +:+ json_kind j +:+
      " into Go struct field " +:+ sname +:+ "." +:+ fd_name fd +:+
      " of type " +:+ kind_name (fd_kind fd)) in
  match fd_kind fd, j with
  | KString, JNull => (cur, None)
  | KString, JString s => (FVString s, None)
  | KMapAny, JNull => (FVMap None, None)
  | KMapAny, JObject kvs =>
      let base := match cur with FVMap (Some m) => m | _ => ∅ end in
      (FVMap (Some (map_of_object base kvs)), None)
  | _, _ => (cur, Some type_error)
  end.

Definition first_error (e1 e2 : option GoError) : option GoError :=
  match e1 with Some e => Some e | None => e2 end.

Section Unmarshal.
Context {T : Type} `{GoStruct T}.

(** One key of an object. *)
Definition decode_member (acc : T * option GoError) (kv : string * json) : T * option GoError :=
  let '(v, err) := acc in
  let '(k, x) := kv in
  match find_field struct_fields k with
  | None => (v, err)
  | Some fd =>
      let '(fv, e) := decode_field struct_name fd (get_field v (fd_name fd)) x in
      (set_field v (fd_name fd) fv, first_error err e)
  end.

Definition Unmarshal_struct (j : json) (v : T) : T * option GoError :=
  match j with
  | JNull => (v, None)
  | JObject kvs => fold_left decode_member kvs (v, None)
  | _ => (v, Some (Errorf ("json: cannot unmarshal " +:+ json_kind j +:+
                            " into Go value of type " +:+ struct_name)))
  end.

(** ** Lemmas *)

Lemma decode_member_invisible kvs v err :
  visible_fields struct_fields = [] ->
  fold_left decode_member kvs (v, err) = (v, err).
Proof.
  intros Hvis. revert err. induction kvs as [|[k x] kvs IH]; intros err; [done|].
  simpl. unfold find_field. rewrite Hvis. apply IH.
Qed.

(** A struct without exported fields is never changed by decoding. *)
Lemma Unmarshal_struct_invisible j v :
  visible_fields struct_fields = [] -> (Unmarshal_struct j v).1 = v.
Proof.
  intros Hvis. destruct j; try done. simpl. by rewrite decode_member_invisible.
Qed.

(** An object with one key naming an exported string field sets that
    field and nothing else. *)
Lemma Unmarshal_struct_string_field k s v fd :
  find_field struct_fields k = Some fd -> fd_kind fd = KString ->
  Unmarshal_struct (JObject [(k, JString s)]) v = (set_field v (fd_name fd) (FVString s), None).
Proof. intros Hf Hk. simpl. rewrite Hf. unfold decode_field. by rewrite Hk. Qed.
End Unmarshal.

