(* ===== verification/Client.v ===== *)
(** * The SDK client, as the handler calls it

    [optlyClient.Track(eventKey, uc, eventTags)] is a method of the Go SDK
    ([client.OptimizelyClient], embedded in the agent's [OptlyClient]).  The
    handler only needs its signature: it is the class [TrackClient], over an
    abstract client state, with the law [Track_error_pure] (a failed Track
    records nothing) stated apart in [TrackClientLaws].  The handler's
    theorems are proved against these classes.

    [QueueClient] is a reference implementation following the SDK's
    behaviour as far as the handler observes it: an event key unknown to the
    project configuration is an error ([GetEventByKey]), a known one
    queues a conversion event for the event processor. *)

From S2P Require Import Prelude Json GoDecode.


Local Open Scope string_scope.

(** [entities.UserContext]. *)
Record UserContext := { ID : string; Attributes : GoMap }.

Class TrackClient (C : Type) := {
  Track : C -> string -> UserContext -> GoMap -> C * option GoError
}.

Class TrackClientLaws (C : Type) `{TrackClient C} := {
  Track_error_pure c k uc tags c' e :
    Track c k uc tags = (c', Some e) -> c' = c
}.

(** ** A reference client: the event queue of the SDK *)

(** A conversion event as the SDK's event processor receives it. *)
Record UserEvent := { ue_key : string; ue_user : UserContext; ue_tags : GoMap }.

Record QueueClient := {
  qc_events : gset string;     (** event keys of the project configuration *)
  qc_queue : list UserEvent    (** events handed to the event processor *)
}.

Definition queue_Track (c : QueueClient) (k : string) (uc : UserContext) (tags : GoMap)
    : QueueClient * option GoError :=
  if decide (k ∈ qc_events c)
  then ({| qc_events := qc_events c;
           qc_queue := qc_queue c ++ [{| ue_key := k; ue_user := uc; ue_tags := tags |}] |},
        None)
  else (c, Some (Errorf ("event with key " +:+ k +:+ " not found"))).

#[export] Instance QueueClient_TrackClient : TrackClient QueueClient :=
  {| Track := queue_Track |}.

#[export] Instance QueueClient_laws : TrackClientLaws QueueClient.
Proof.
  constructor. intros c k uc tags c' e. simpl. unfold queue_Track.
  case_decide; congruence.
Qed.

(** ** Lemmas *)

Lemma queue_Track_known c k uc tags :
  k ∈ qc_events c ->
  queue_Track c k uc tags =
  ({| qc_events := qc_events c;
      qc_queue := qc_queue c ++ [{| ue_key := k; ue_user := uc; ue_tags := tags |}] |}, None).
Proof. intros Hk. unfold queue_Track. by rewrite decide_True. Qed.

Lemma queue_Track_unknown c k uc tags :
  k ∉ qc_events c -> (queue_Track c k uc tags).1 = c /\ is_Some (queue_Track c k uc tags).2.
Proof. intros Hk. unfold queue_Track. rewrite decide_False by done. split; eauto. Qed.


(** A Track call queues at most one event. *)
Lemma queue_Track_length c k uc tags :
  length (qc_queue (queue_Track c k uc tags).1) <= S (length (qc_queue c)).
Proof. unfold queue_Track. case_decide; cbn; rewrite ?length_app; cbn; lia. Qed.
