(* ===== verification/Handlers.v ===== *)
(** * The track handler: [src/pkg/handlers/track.go]

    [trackBody] (lines 30-34) is the struct the body is decoded into, with
    its reflection view for encoding/json.  [TrackEvent] (lines 37-72) is
    the handler, a computation of the state monad [St World]: the world
    holds the shared SDK client objects (addressed by reference, as the Go
    pointers the middleware binds to requests), the response writer, and
    the trace of the effects the handler performs (Track calls, log lines
    and response-writer calls) in the order it performs them.

    The collaborators of the package outside [src/] are modelled from the
    spec: [parseContext] (the client bound to the request, or an error),
    [ParseRequestBody] (parse the body as JSON, then decode it into the
    given struct; any failure is an error), [RenderError] (the status and a
    JSON body [{"error": msg}] through go-chi's [render.Status] and
    [render.JSON]) and [GetLogger] (the logger of the request).

    The lemmas compute the handler on each of its five branches
    ([run_track], [TrackEvent_viewP]), relate it to the spec's decision
    table ([track_contract]), and state the order of its effects, the
    frame of the client store, its log lines, the response the client
    receives (204 with no body, or an error status with the JSON error
    body) and the composition with a client that encodes its query with
    [Values.Encode].  [trackBody_check] is the direct check decoding into
    [trackBody] amounts to.  [TrackEvent_phases] splits the handler into
    [plan], the Track call and [after_track], the steps [Server] runs
    concurrently.  [serve] runs a sequence of requests on shared client objects,
    each with a fresh response writer as net/http gives it; with the
    reference client [QueueClient] it shows that every tracked event is
    anonymous and that tracking is not idempotent. *)

From S2P Require Import Prelude Http Logger Json UrlQuery GoDecode Client.
Import Zerolog.


Local Open Scope string_scope.
Local Open Scope st_scope.
Local Open Scope list_scope.

(** ** trackBody *)

Record trackBody := { userID : string; userAttributes : GoMap; eventTags : GoMap }.

(** [var body trackBody]: the zero value. *)
Definition trackBody_zero : trackBody :=
  {| userID := ""; userAttributes := None; eventTags := None |}.

Definition trackBody_decl : list FieldDecl :=
  [ {| fd_name := "userID"; fd_kind := KString |};
    {| fd_name := "userAttributes"; fd_kind := KMapAny |};
    {| fd_name := "eventTags"; fd_kind := KMapAny |} ].

Definition trackBody_get (b : trackBody) (name : string) : FieldVal :=
  if String.eqb name "userID" then FVString (userID b)
  else if String.eqb name "userAttributes" then FVMap (userAttributes b)
  else FVMap (eventTags b).

Definition trackBody_set (b : trackBody) (name : string) (fv : FieldVal) : trackBody :=
  match fv with
  | FVString s =>
      if String.eqb name "userID"
      then {| userID := s; userAttributes := userAttributes b; eventTags := eventTags b |}
      else b
  | FVMap m =>
      if String.eqb name "userAttributes"
      then {| userID := userID b; userAttributes := m; eventTags := eventTags b |}
      else if String.eqb name "eventTags"
      then {| userID := userID b; userAttributes := userAttributes b; eventTags := m |}
      else b
  end.

#[export] Instance trackBody_GoStruct : GoStruct trackBody :=
  {| struct_name := "handlers.trackBody"; struct_fields := trackBody_decl;
     get_field := trackBody_get; set_field := trackBody_set |}.

(** ** Requests *)

(** A reference to an SDK client object (a Go pointer). *)
Abbreviation ClientRef := nat.

Record Request := {
  r_client : option ClientRef;  (** the client bound by the middleware *)
  r_logger : Logger;            (** the request's logger *)
  r_rawquery : string;          (** [r.URL.RawQuery] *)
  r_body : string               (** the body bytes *)
}.

(** [middleware.GetLogger(r)]. *)
Definition GetLogger (r : Request) : Logger := r_logger r.

(** [parseContext(r)]: the client bound to the request; the second result
    of the Go function is ignored by the handler and not modelled. *)
Definition parseContext (r : Request) : GoError + ClientRef :=
  match r_client r with
  | Some c => inr c
  | None => inl (Errorf "optlyClient not available")
  end.

(** [ParseRequestBody(r, &v)]: the body must be one JSON value, which is
    then decoded into [v]. *)
Definition ParseRequestBody {T} `{GoStruct T} (r : Request) (v : T) : T * option GoError :=
  match Json.parse (r_body r) with
  | None => (v, Some (Errorf "error parsing request body"))
  | Some j => Unmarshal_struct j v
  end.

(** [ErrorResponse{Error: msg}] as json.Encoder writes it: the object and
    a newline. *)
Definition ErrorResponse_json (msg : string) : string :=
  "{" +:+ encode_string "error" +:+ ":" +:+ encode_string msg +:+ "}" +:+
  String (Ascii.ascii_of_nat 10) EmptyString.

(** What decoding a body into [trackBody] amounts to, written directly on
    the parsed value: the body is rejected unless it is [null] or an
    object, and nothing of it is kept. *)
Definition trackBody_check (body : string) : option GoError :=
  match Json.parse body with
  | None => Some (Errorf "error parsing request body")
  | Some JNull | Some (JObject _) => None
  | Some j => Some (Errorf ("json: cannot unmarshal " +:+ json_kind j +:+
                            " into Go value of type handlers.trackBody"))
  end.

Definition ContentTypeJSON : string := "application/json; charset=utf-8".

(** ** The handler around its one access to shared state

    Everything [TrackEvent] does before [optlyClient.Track] reads only the
    request (lines 38-61): it either rejects the request with a status and
    an error, or decides the arguments of the Track call.  What it does
    after (lines 65-71) touches only the request's logger and response
    writer.  The concurrent server model runs these phases as separate
    steps. *)
Inductive Plan :=
  | Reject (status : Z) (err : GoError)
  | CallTrack (ref : ClientRef) (eventKey : string) (uc : UserContext) (tags : GoMap).

Definition plan (r : Request) : Plan :=
  match parseContext r with
  | inl err => Reject StatusInternalServerError err
  | inr optlyClient =>
      let '(body, err) := ParseRequestBody r trackBody_zero in
      match err with
      | Some err => Reject StatusBadRequest err
      | None =>
          let eventKey := Get (Query (r_rawquery r)) "eventKey" in
          if String.eqb eventKey "" then
            Reject StatusBadRequest (Errorf "missing required path parameter: eventKey")
          else
            CallTrack optlyClient eventKey
              {| ID := userID body; Attributes := userAttributes body |} (eventTags body)
      end
  end.

Section Handler.
Context {C : Type} `{TrackClient C}.

(** ** The world and its effects *)

Inductive Effect :=
  | ETrack (ref : ClientRef) (eventKey : string) (uc : UserContext) (tags : GoMap)
           (result : option GoError)
  | ELog (e : LogEntry)
  | EHeader (k v : string)
  | EWriteHeader (code : Z)
  | EWrite (b : string).

Record World := {
  w_clients : ClientRef -> C;
  w_resp : Recorder;
  w_trace : list Effect
}.

Definition emit (f : Recorder -> Recorder) (e : Effect) : St World unit :=
  st_modify (fun w => {| w_clients := w_clients w; w_resp := f (w_resp w);
                         w_trace := w_trace w ++ [e] |}).

(** [w.Header().Set], [w.WriteHeader], [w.Write]. *)
Definition w_HeaderSet (k v : string) : St World unit := emit (Header_Set k v) (EHeader k v).
Definition w_WriteHeader (code : Z) : St World unit := emit (WriteHeader code) (EWriteHeader code).
Definition w_Write (b : string) : St World unit := emit (fun rw => (Write b rw).2) (EWrite b).

(** [...Msg(m)]: the line is emitted when the event is not nil. *)
Definition log (e : option LogEntry) : St World unit :=
  match e with
  | Some l => emit id (ELog l)
  | None => st_ret tt
  end.

(** [optlyClient.Track(eventKey, uc, eventTags)] on the shared object. *)
Definition client_Track (ref : ClientRef) (k : string) (uc : UserContext) (tags : GoMap)
    : St World (option GoError) :=
  fun w =>
    let '(c', err) := Track (w_clients w ref) k uc tags in
    (err, {| w_clients := upd (w_clients w) ref c'; w_resp := w_resp w;
             w_trace := w_trace w ++ [ETrack ref k uc tags err] |}).

(** [render.NoContent(w, r)]. *)
Definition NoContent : St World unit := w_WriteHeader StatusNoContent.

(** [render.JSON(w, r, v)] with the status set by [render.Status]. *)
Definition render_JSON (status : Z) (buf : string) : St World unit :=
  w_HeaderSet "Content-Type" ContentTypeJSON ;;
  w_WriteHeader status ;;
  w_Write buf.

(** [RenderError(err, status, w, r)]. *)
Definition RenderError (err : GoError) (status : Z) : St World unit :=
  render_JSON status (ErrorResponse_json (Prelude.Error err)).

(** ** TrackEvent *)

Definition TrackEvent (r : Request) : St World unit :=
  match parseContext r with
  | inl err => RenderError err StatusInternalServerError
  | inr optlyClient =>
      let '(body, err) := ParseRequestBody r trackBody_zero in
      match err with
      | Some err => RenderError err StatusBadRequest
      | None =>
          let eventKey := Get (Query (r_rawquery r)) "eventKey" in
          if String.eqb eventKey "" then
            RenderError (Errorf "missing required path parameter: eventKey") StatusBadRequest
          else
            let uc := {| ID := userID body; Attributes := userAttributes body |} in
            err <- client_Track optlyClient eventKey uc (eventTags body) ;;
            match err with
            | Some err =>
                log (Msg (Str "eventKey" eventKey (Err err (Zerolog.Error (GetLogger r))))
                         "error tracking event") ;;
                RenderError err StatusNotFound
            | None =>
                log (Msg (Str "eventKey" eventKey (Zerolog.Debug (GetLogger r)))
                         "tracking event") ;;
                NoContent
            end
      end
  end.


(** ** What the handler's branches produce *)

(** Lines 65-71: after Track returned [err]. *)
Definition after_track (r : Request) (eventKey : string) (err : option GoError) : St World unit :=
  match err with
  | Some err =>
      log (Msg (Str "eventKey" eventKey (Err err (Zerolog.Error (GetLogger r))))
               "error tracking event") ;;
      RenderError err StatusNotFound
  | None =>
      log (Msg (Str "eventKey" eventKey (Zerolog.Debug (GetLogger r)))
               "tracking event") ;;
      NoContent
  end.

Definition log_effects (e : option LogEntry) : list Effect :=
  match e with Some l => [ELog l] | None => [] end.

(** The world after [RenderError] with status [status] and message [msg]. *)
Definition rendered (status : Z) (msg : string) (w : World) : World :=
  {| w_clients := w_clients w;
     w_resp := (Write (ErrorResponse_json msg)
                  (WriteHeader status (Header_Set "Content-Type" ContentTypeJSON (w_resp w)))).2;
     w_trace := w_trace w ++ [EHeader "Content-Type" ContentTypeJSON; EWriteHeader status;
                             EWrite (ErrorResponse_json msg)] |}.

(** ** A case view of the handler *)

(** The five worlds the handler can end in, with the facts that select
    each; [TrackEvent_viewP] shows the handler always ends in one. *)
Inductive TrackEvent_view (r : Request) (w : World) : World -> Prop :=
  | view_no_client :
      r_client r = None ->
      TrackEvent_view r w (rendered StatusInternalServerError "optlyClient not available" w)
  | view_bad_body ref body err :
      r_client r = Some ref -> ParseRequestBody r trackBody_zero = (body, Some err) ->
      TrackEvent_view r w (rendered StatusBadRequest (Prelude.Error err) w)
  | view_missing_key ref body :
      r_client r = Some ref -> ParseRequestBody r trackBody_zero = (body, None) ->
      Get (Query (r_rawquery r)) "eventKey" = "" ->
      TrackEvent_view r w
        (rendered StatusBadRequest "missing required path parameter: eventKey" w)
  | view_track_failed ref body k c' err :
      r_client r = Some ref -> ParseRequestBody r trackBody_zero = (body, None) ->
      Get (Query (r_rawquery r)) "eventKey" = k -> k <> "" ->
      Track (w_clients w ref) k {| ID := userID body; Attributes := userAttributes body |}
            (eventTags body) = (c', Some err) ->
      TrackEvent_view r w
        (rendered StatusNotFound (Prelude.Error err)
           {| w_clients := upd (w_clients w) ref c'; w_resp := w_resp w;
              w_trace := w_trace w ++
                [ETrack ref k {| ID := userID body; Attributes := userAttributes body |}
                        (eventTags body) (Some err)] ++
                log_effects (Msg (Str "eventKey" k (Err err (Zerolog.Error (r_logger r))))
                                 "error tracking event") |})
  | view_tracked ref body k c' :
      r_client r = Some ref -> ParseRequestBody r trackBody_zero = (body, None) ->
      Get (Query (r_rawquery r)) "eventKey" = k -> k <> "" ->
      Track (w_clients w ref) k {| ID := userID body; Attributes := userAttributes body |}
            (eventTags body) = (c', None) ->
      TrackEvent_view r w
        {| w_clients := upd (w_clients w) ref c';
           w_resp := WriteHeader StatusNoContent (w_resp w);
           w_trace := w_trace w ++
             [ETrack ref k {| ID := userID body; Attributes := userAttributes body |}
                     (eventTags body) None] ++
             log_effects (Msg (Str "eventKey" k (Zerolog.Debug (r_logger r))) "tracking event") ++
             [EWriteHeader StatusNoContent] |}.

(** ** The contract of the spec *)

(** The outcomes of spec §4 and §7, with their statuses. *)
Inductive Verdict := NoClient | BadBody | MissingEventKey | TrackFailed | Tracked.

Definition verdict_status (v : Verdict) : Z :=
  match v with
  | NoClient => StatusInternalServerError
  | BadBody | MissingEventKey => StatusBadRequest
  | TrackFailed => StatusNotFound
  | Tracked => StatusNoContent
  end.

Definition verdict_tracks (v : Verdict) : bool :=
  match v with TrackFailed | Tracked => true | _ => false end.

(** The spec's decision table: the first check that fails decides. *)
Inductive track_contract (r : Request) (w : World) : Verdict -> Prop :=
  | c_no_client : r_client r = None -> track_contract r w NoClient
  | c_bad_body ref b e :
      r_client r = Some ref -> ParseRequestBody r trackBody_zero = (b, Some e) ->
      track_contract r w BadBody
  | c_missing_key ref b :
      r_client r = Some ref -> ParseRequestBody r trackBody_zero = (b, None) ->
      Get (Query (r_rawquery r)) "eventKey" = "" -> track_contract r w MissingEventKey
  | c_track_failed ref b k c' e :
      r_client r = Some ref -> ParseRequestBody r trackBody_zero = (b, None) ->
      Get (Query (r_rawquery r)) "eventKey" = k -> k <> "" ->
      Track (w_clients w ref) k {| ID := userID b; Attributes := userAttributes b |}
            (eventTags b) = (c', Some e) ->
      track_contract r w TrackFailed
  | c_tracked ref b k c' :
      r_client r = Some ref -> ParseRequestBody r trackBody_zero = (b, None) ->
      Get (Query (r_rawquery r)) "eventKey" = k -> k <> "" ->
      Track (w_clients w ref) k {| ID := userID b; Attributes := userAttributes b |}
            (eventTags b) = (c', None) ->
      track_contract r w Tracked.

Definition is_track (e : Effect) : bool := match e with ETrack _ _ _ _ _ => true | _ => false end.

Definition count_tracks (tr : list Effect) : nat := length (filter is_track tr).

(** ** Safety *)

Definition is_response (e : Effect) : bool :=
  match e with EHeader _ _ | EWriteHeader _ | EWrite _ => true | _ => false end.

Definition is_log (e : Effect) : bool := match e with ELog _ => true | _ => false end.

Definition is_writeheader (e : Effect) : bool :=
  match e with EWriteHeader _ => true | _ => false end.

(** ** Sequences of requests *)

(** A new request gets a new [http.ResponseWriter]: the client objects
    and the trace are shared, the response starts empty. *)
Definition new_response (w : World) : World :=
  {| w_clients := w_clients w; w_resp := fresh_recorder; w_trace := w_trace w |}.

(** The server handling requests one after the other on shared client
    objects, each with its own response writer; the responses sent, in the
    order of the requests. *)
Fixpoint serve (rs : list Request) : St World (list Recorder) :=
  match rs with
  | [] => st_ret []
  | r :: rs' =>
      st_modify new_response ;;
      TrackEvent r ;;
      w <- st_get ;;
      resps <- serve rs' ;;
      st_ret (w_resp w :: resps)
  end.

End Handler.

(** ** The reference client: every tracked event is anonymous *)

Definition anonymous (ev : UserEvent) : Prop :=
  ue_user ev = {| ID := ""; Attributes := None |} /\ ue_tags ev = None.

Definition anonymous_queues (w : World (C := QueueClient)) : Prop :=
  forall ref, Forall anonymous (qc_queue (w_clients w ref)).

(** ** Concrete requests (the scenarios of the spec) *)

Definition fx_q : string := String dq EmptyString.

(** [{"userID":"u1","userAttributes":{},"eventTags":{"revenue":10}}] *)
Definition fx_body : string :=
  "{" +:+ fx_q +:+ "userID" +:+ fx_q +:+ ":" +:+ fx_q +:+ "u1" +:+ fx_q +:+ "," +:+
  fx_q +:+ "userAttributes" +:+ fx_q +:+ ":{}," +:+
  fx_q +:+ "eventTags" +:+ fx_q +:+ ":{" +:+ fx_q +:+ "revenue" +:+ fx_q +:+ ":10}}".

Definition fx_logger : Logger := {| lg_level := DebugLevel; lg_context := [] |}.

Definition fx_request (client : option ClientRef) (query body : string) : Request :=
  {| r_client := client; r_logger := fx_logger; r_rawquery := query; r_body := body |}.

Definition fx_client : QueueClient := {| qc_events := {["purchase"]}; qc_queue := [] |}.

Definition fx_world : World (C := QueueClient) :=
  {| w_clients := fun _ => fx_client; w_resp := fresh_recorder; w_trace := [] |}.

Definition fx_anonymous : UserContext := {| ID := ""; Attributes := None |}.

Definition fx_client_after : QueueClient :=
  {| qc_events := {["purchase"]};
     qc_queue := [{| ue_key := "purchase"; ue_user := fx_anonymous; ue_tags := None |}] |}.

Definition fx_object : json :=
  JObject [("userID", JString "u1"); ("userAttributes", JObject []);
           ("eventTags", JObject [("revenue", JNumber "10")])].

(** ** Lemmas *)

(** Decoding into a struct without exported fields never changes it, so
    neither does [ParseRequestBody]. *)
Lemma ParseRequestBody_invisible {T} `{GoStruct T} r (v : T) :
  visible_fields struct_fields = [] -> (ParseRequestBody r v).1 = v.
Proof.
  intros Hvis. unfold ParseRequestBody. destruct (Json.parse (r_body r)); [|by repeat case_match].
  by apply Unmarshal_struct_invisible.
Qed.

Lemma trackBody_invisible : visible_fields (@struct_fields trackBody _) = [].
Proof. reflexivity. Qed.

(** C10: the fields of [trackBody] are unexported, so encoding/json never
    sets them: whatever the request body, [ParseRequestBody] leaves the
    struct it is given as it was (the user ID, attributes and tags sent by
    the client are dropped). *)
Theorem ParseRequestBody_trackBody_unchanged r (b : trackBody) :
  (ParseRequestBody r b).1 = b.
Proof. apply ParseRequestBody_invisible, trackBody_invisible. Qed.

(** C19: equivalence with a reference validator.  For every request body,
    [ParseRequestBody] into [trackBody] (JSON parsing, then encoding/json's
    reflective decoding) is equivalent to the direct check
    [trackBody_check]: it returns the zero [trackBody] and an error
    exactly when the body is not JSON [null] or a JSON object. *)
Theorem ParseRequestBody_trackBody_check r :
  ParseRequestBody r trackBody_zero = (trackBody_zero, trackBody_check (r_body r)).
Proof.
  unfold ParseRequestBody, trackBody_check. destruct (Json.parse (r_body r)) as [j|]; [|done].
  destruct j; cbn [Unmarshal_struct]; try done.
  by rewrite decode_member_invisible by apply trackBody_invisible.
Qed.

Section HandlerRun.
Context {C : Type} `{TrackClient C}.
Implicit Types (w : @World C).

Lemma RenderError_run err status w :
  RenderError err status w = (tt, rendered status (Prelude.Error err) w).
Proof.
  unfold RenderError, render_JSON, w_HeaderSet, w_WriteHeader, w_Write, emit,
    st_bind, st_modify, rendered. simpl. by rewrite <- !app_assoc.
Qed.

Lemma log_run e w :
  log e w = (tt, {| w_clients := w_clients w; w_resp := w_resp w;
                    w_trace := w_trace w ++ log_effects e |}).
Proof. destruct e; cbn; [reflexivity|]. rewrite app_nil_r. by destruct w. Qed.

Lemma NoContent_run w :
  NoContent w = (tt, {| w_clients := w_clients w;
                        w_resp := WriteHeader StatusNoContent (w_resp w);
                        w_trace := w_trace w ++ [EWriteHeader StatusNoContent] |}).
Proof. reflexivity. Qed.

Lemma String_eqb_neq_empty (k : string) : k <> "" -> String.eqb k "" = false.
Proof. apply String.eqb_neq. Qed.


End HandlerRun.

(** [run_track] computes [TrackEvent r w] in the goal once the facts
    that decide its branch are hypotheses. *)
Ltac run_track :=
  unfold TrackEvent, parseContext;
  repeat match goal with
    | H : r_client _ = _ |- _ => rewrite H
    | H : ParseRequestBody _ _ = _ |- _ => rewrite H
    | H : Get _ _ = _ |- _ => rewrite H
    end;
  try (rewrite String_eqb_neq_empty by assumption); rewrite ?String.eqb_refl;
  cbv iota beta;
  try (unfold st_bind at 1, client_Track;
       match goal with H : Track _ _ _ _ = _ |- _ => rewrite H end;
       rewrite st_bind_run, log_run; cbn [fst snd]);
  rewrite ?NoContent_run, ?RenderError_run; cbn [w_clients w_resp w_trace];
  rewrite <- ?app_assoc.

Section HandlerProps.
Context {C : Type} `{TrackClient C}.
Implicit Types (w : @World C).

(** ** Functional behaviour of TrackEvent, branch by branch *)

(** C4: with no client bound to the request, the handler answers 500
    with the context error, whatever the body and the query; nothing is
    tracked or logged. *)
Theorem TrackEvent_no_client r w :
  r_client r = None ->
  TrackEvent r w = (tt, rendered StatusInternalServerError "optlyClient not available" w).
Proof. intros Hc. by run_track. Qed.

(** C3: a body that does not parse or decode is answered 400 with the
    parser's error, before the event key is even read; nothing is tracked
    or logged. *)
Theorem TrackEvent_bad_body r w ref body err :
  r_client r = Some ref ->
  ParseRequestBody r trackBody_zero = (body, Some err) ->
  TrackEvent r w = (tt, rendered StatusBadRequest (Prelude.Error err) w).
Proof. intros Hc Hb. by run_track. Qed.

(** C2: an absent or empty [eventKey] is answered 400 with the message
    "missing required path parameter: eventKey"; nothing is tracked or
    logged. *)
Theorem TrackEvent_missing_eventKey r w ref body :
  r_client r = Some ref ->
  ParseRequestBody r trackBody_zero = (body, None) ->
  Get (Query (r_rawquery r)) "eventKey" = "" ->
  TrackEvent r w =
  (tt, rendered StatusBadRequest "missing required path parameter: eventKey" w).
Proof. intros Hc Hb Hk. by run_track. Qed.

(** C1: when the three checks pass and Track succeeds, the client object
    is updated by Track, called once with the event key, the user context
    built from the body and its tags; then a debug line is logged (if the
    level is enabled) and 204 is sent, in this order. *)
Theorem TrackEvent_tracked r w ref body k c' :
  r_client r = Some ref ->
  ParseRequestBody r trackBody_zero = (body, None) ->
  Get (Query (r_rawquery r)) "eventKey" = k -> k <> "" ->
  Track (w_clients w ref) k {| ID := userID body; Attributes := userAttributes body |}
        (eventTags body) = (c', None) ->
  TrackEvent r w =
  (tt, {| w_clients := upd (w_clients w) ref c';
          w_resp := WriteHeader StatusNoContent (w_resp w);
          w_trace := w_trace w ++
            [ETrack ref k {| ID := userID body; Attributes := userAttributes body |}
                    (eventTags body) None] ++
            log_effects (Msg (Str "eventKey" k (Zerolog.Debug (r_logger r))) "tracking event") ++
            [EWriteHeader StatusNoContent] |}).
Proof. intros Hc Hb Hk Hne HT. by run_track. Qed.

(** C5: when Track fails, the handler logs one error line carrying the
    error and the event key (if the level is enabled) and answers 404 with
    Track's error. *)
Theorem TrackEvent_track_failed r w ref body k c' err :
  r_client r = Some ref ->
  ParseRequestBody r trackBody_zero = (body, None) ->
  Get (Query (r_rawquery r)) "eventKey" = k -> k <> "" ->
  Track (w_clients w ref) k {| ID := userID body; Attributes := userAttributes body |}
        (eventTags body) = (c', Some err) ->
  TrackEvent r w =
  (tt, rendered StatusNotFound (Prelude.Error err)
         {| w_clients := upd (w_clients w) ref c';
            w_resp := w_resp w;
            w_trace := w_trace w ++
              [ETrack ref k {| ID := userID body; Attributes := userAttributes body |}
                      (eventTags body) (Some err)] ++
              log_effects (Msg (Str "eventKey" k (Err err (Zerolog.Error (r_logger r))))
                               "error tracking event") |}).
Proof. intros Hc Hb Hk Hne HT. by run_track. Qed.

(** The handler is its check phase, then, when the checks pass, the Track
    call on the shared client object, then its finishing phase. *)
Lemma TrackEvent_phases r w :
  TrackEvent r w =
  match plan r with
  | Reject status err => RenderError err status w
  | CallTrack ref k uc tags => (err <- client_Track ref k uc tags ;; after_track r k err) w
  end.
Proof.
  unfold TrackEvent, plan. destruct (parseContext r); [reflexivity|].
  destruct (ParseRequestBody r trackBody_zero) as [body [err|]]; [reflexivity|].
  by destruct (String.eqb _ "").
Qed.

(** The finishing phase keeps the client objects, and what it sends
    depends only on the response writer it starts from. *)
Lemma after_track_frame r k err w1 w2 :
  w_resp w1 = w_resp w2 ->
  w_clients (after_track r k err w1).2 = w_clients w1 /\
  w_resp (after_track r k err w1).2 = w_resp (after_track r k err w2).2.
Proof.
  intros Hr. destruct err; unfold after_track; rewrite !st_bind_run, !log_run; cbn [fst snd];
    rewrite ?RenderError_run, ?NoContent_run; cbn; by rewrite Hr.
Qed.

Lemma after_track_proj r k err w1 w2 :
  w_clients w1 = w_clients w2 -> w_resp w1 = w_resp w2 ->
  w_clients (after_track r k err w1).2 = w_clients (after_track r k err w2).2 /\
  w_resp (after_track r k err w1).2 = w_resp (after_track r k err w2).2.
Proof.
  intros Hc Hr. destruct (after_track_frame r k err w1 w2 Hr) as [-> ->].
  destruct (after_track_frame r k err w2 w2 eq_refl) as [-> _]. done.
Qed.

(** The client objects and the response after the handler depend only on
    the client objects and the response before it, not on the trace. *)
Lemma TrackEvent_proj r w1 w2 :
  w_clients w1 = w_clients w2 -> w_resp w1 = w_resp w2 ->
  w_clients (TrackEvent r w1).2 = w_clients (TrackEvent r w2).2 /\
  w_resp (TrackEvent r w1).2 = w_resp (TrackEvent r w2).2.
Proof.
  intros Hc Hr. rewrite !TrackEvent_phases. destruct (plan r) as [status err|ref k uc tags].
  - rewrite !RenderError_run. cbn. by rewrite Hc, Hr.
  - rewrite !st_bind_run. unfold client_Track. rewrite <- Hc.
    destruct (Track (w_clients w1 ref) k uc tags) as [c' err]. cbn [fst snd].
    apply after_track_proj; cbn; congruence.
Qed.

Lemma TrackEvent_viewP r w : TrackEvent_view r w (TrackEvent r w).2.
Proof.
  destruct (r_client r) as [ref|] eqn:Hc; [|run_track; by apply view_no_client].
  destruct (ParseRequestBody r trackBody_zero) as [body [err|]] eqn:Hb.
  { run_track. by eapply view_bad_body. }
  remember (Get (Query (r_rawquery r)) "eventKey") as k eqn:Hk. symmetry in Hk.
  destruct (decide (k = "")) as [->|Hne].
  { run_track. by eapply view_missing_key. }
  destruct (Track (w_clients w ref) k {| ID := userID body; Attributes := userAttributes body |}
                  (eventTags body)) as [c' [err|]] eqn:HT.
  - run_track. by eapply view_track_failed.
  - run_track. by eapply view_tracked.
Qed.

Lemma count_tracks_app tr1 tr2 : count_tracks (tr1 ++ tr2) = count_tracks tr1 + count_tracks tr2.
Proof. unfold count_tracks. by rewrite filter_app, length_app. Qed.

Lemma count_tracks_log e : count_tracks (log_effects e) = 0.
Proof. by destruct e. Qed.

Lemma filter_track_log e : filter is_track (log_effects e) = [].
Proof. by destruct e. Qed.

Lemma rendered_code status msg w :
  rec_code (w_resp (rendered status msg w)) = Some (default status (rec_code (w_resp w))).
Proof.
  unfold rendered. cbn [w_resp]. rewrite Write_code, WriteHeader_code_some.
  by rewrite Header_Set_code.
Qed.

Lemma rendered_tracks status msg w :
  count_tracks (w_trace (rendered status msg w)) = count_tracks (w_trace w).
Proof. unfold rendered. cbn [w_trace]. rewrite count_tracks_app. apply Nat.add_0_r. Qed.

(** C6: refinement.  On a response not yet started, the handler ends in
    the verdict of the spec's decision table: it sends that verdict's
    status, and calls Track exactly once when the verdict is a Track
    outcome and never otherwise. *)
Theorem TrackEvent_refines_contract r w :
  rec_code (w_resp w) = None ->
  exists v, track_contract r w v /\
    rec_code (w_resp (TrackEvent r w).2) = Some (verdict_status v) /\
    count_tracks (w_trace (TrackEvent r w).2) =
    count_tracks (w_trace w) + (if verdict_tracks v then 1 else 0).
Proof.
  intros Hfresh. destruct (TrackEvent_viewP r w).
  - exists NoClient. split; [by constructor|].
    by rewrite rendered_code, rendered_tracks, Hfresh, Nat.add_0_r.
  - exists BadBody. split; [by econstructor|].
    by rewrite rendered_code, rendered_tracks, Hfresh, Nat.add_0_r.
  - exists MissingEventKey. split; [by econstructor|].
    by rewrite rendered_code, rendered_tracks, Hfresh, Nat.add_0_r.
  - exists TrackFailed. split; [by econstructor|]. rewrite rendered_code, rendered_tracks.
    cbn [w_resp w_trace]. rewrite !count_tracks_app, count_tracks_log, Hfresh. split; [done|reflexivity].
  - exists Tracked. split; [by econstructor|]. cbn [w_resp w_trace].
    rewrite WriteHeader_code_some, !count_tracks_app, count_tracks_log, Hfresh. split; [done|reflexivity].
Qed.

Lemma log_effects_quiet e :
  Forall (fun x => is_response x = false) (log_effects e).
Proof. destruct e; repeat constructor. Qed.

(** C7: ordering.  The effects of one request are a prefix that writes
    nothing to the response (the Track call and its log line) followed by
    a suffix that calls no Track (the response), in which WriteHeader is
    called exactly once. *)
Theorem TrackEvent_track_before_response r w :
  exists pre post,
    w_trace (TrackEvent r w).2 = (w_trace w ++ pre ++ post)%list /\
    Forall (fun e => is_response e = false) pre /\
    Forall (fun e => is_track e = false) post /\
    length (filter is_writeheader post) = 1.
Proof.
  destruct (TrackEvent_viewP r w); cbn [rendered w_trace].
  1-3: by eexists [], _; repeat split; repeat constructor.
  - eexists (ETrack _ _ _ _ _ :: log_effects _), _.
    split; [by rewrite <- ?app_assoc|]. repeat split; repeat constructor.
    apply log_effects_quiet.
  - eexists (ETrack _ _ _ _ _ :: log_effects _), _.
    split; [by rewrite <- ?app_assoc|]. repeat split; repeat constructor.
    apply log_effects_quiet.
Qed.

(** C8: frame.  Only the client object bound to the request can change;
    every other client object is left as it was. *)
Theorem TrackEvent_frame r w ref' :
  r_client r <> Some ref' -> w_clients (TrackEvent r w).2 ref' = w_clients w ref'.
Proof.
  intros Hne. destruct (TrackEvent_viewP r w); cbn [rendered w_clients]; try done;
    apply upd_ne; congruence.
Qed.

(** C14: logging on a failed Track.  The request adds exactly one log line
    when the logger enables the error level, and none otherwise; the line
    is at error level, carries the logger's context fields, the error and
    the event key, and says "error tracking event". *)
Theorem TrackEvent_track_failed_log r w ref body k c' err :
  r_client r = Some ref ->
  ParseRequestBody r trackBody_zero = (body, None) ->
  Get (Query (r_rawquery r)) "eventKey" = k -> k <> "" ->
  Track (w_clients w ref) k {| ID := userID body; Attributes := userAttributes body |}
        (eventTags body) = (c', Some err) ->
  filter is_log (w_trace (TrackEvent r w).2) =
  filter is_log (w_trace w) ++
  (if should (r_logger r) ErrorLevel
   then [ELog {| le_level := ErrorLevel;
                 le_fields := lg_context (r_logger r) ++
                              [(ErrorFieldName, Prelude.Error err); ("eventKey", k)];
                 le_message := "error tracking event" |}]
   else []).
Proof.
  intros Hc Hb Hk Hne HT. run_track. cbn [rendered w_trace snd].
  rewrite !filter_app. unfold Zerolog.Error. rewrite Msg_Str_Err.
  unfold GetLogger. destruct (should (r_logger r) ErrorLevel); simpl;
    rewrite <- ?app_assoc; simpl; by rewrite ?app_nil_r.
Qed.

(** C16: logging on a tracked event.  The request adds exactly one log
    line, at debug level, carrying the event key, when the request's
    logger has the debug level enabled, and no log line otherwise: the
    spec's "exactly one log emission per outcome branch" depends on the
    configured level. *)
Theorem TrackEvent_tracked_log r w ref body k c' :
  r_client r = Some ref ->
  ParseRequestBody r trackBody_zero = (body, None) ->
  Get (Query (r_rawquery r)) "eventKey" = k -> k <> "" ->
  Track (w_clients w ref) k {| ID := userID body; Attributes := userAttributes body |}
        (eventTags body) = (c', None) ->
  filter is_log (w_trace (TrackEvent r w).2) =
  filter is_log (w_trace w) ++
  (if should (r_logger r) DebugLevel
   then [ELog {| le_level := DebugLevel; le_fields := lg_context (r_logger r) ++ [("eventKey", k)];
                 le_message := "tracking event" |}]
   else []).
Proof.
  intros Hc Hb Hk Hne HT. run_track. cbn [w_trace snd].
  rewrite !filter_app. unfold Zerolog.Debug. rewrite Msg_Str.
  unfold GetLogger. destruct (should (r_logger r) DebugLevel); simpl;
    rewrite <- ?app_assoc; simpl; by rewrite ?app_nil_r.
Qed.

(** C18: composition with the client's encoder.  A request whose query
    string a client wrote with [url.Values{"eventKey": {k}}.Encode()], for
    any non-empty key [k] (with any bytes), on a bound client and a body
    that decodes, calls Track exactly once, with the key [k] unchanged. *)
Theorem TrackEvent_encoded_eventKey r w ref body k :
  r_client r = Some ref ->
  ParseRequestBody r trackBody_zero = (body, None) ->
  r_rawquery r = Encode {["eventKey" := [k]]} -> k <> "" ->
  filter is_track (w_trace (TrackEvent r w).2) =
  filter is_track (w_trace w) ++
  [ETrack ref k {| ID := userID body; Attributes := userAttributes body |} (eventTags body)
     (Track (w_clients w ref) k {| ID := userID body; Attributes := userAttributes body |}
            (eventTags body)).2].
Proof.
  intros Hc Hb Hq Hne.
  assert (Hk : Get (Query (r_rawquery r)) "eventKey" = k)
    by (rewrite Hq; apply Get_Query_Encode_single).
  destruct (Track (w_clients w ref) k _ (eventTags body)) as [c' res] eqn:HT.
  destruct res; run_track; cbn [snd rendered w_trace]; rewrite !filter_app, filter_track_log;
    simpl; by rewrite ?app_nil_r.
Qed.

Lemma rendered_fresh status msg w :
  w_resp w = fresh_recorder -> bodyAllowedForStatus status = true ->
  w_resp (rendered status msg w) =
  {| rec_code := Some status; rec_header := {["Content-Type" := ContentTypeJSON]};
     pending_header := {["Content-Type" := ContentTypeJSON]};
     rec_body := ErrorResponse_json msg |}.
Proof. intros Hf Hb. unfold rendered. cbn [w_resp]. rewrite Hf. unfold Write. simpl. by rewrite Hb. Qed.

(** C15: what the client receives, on a response not yet started: either
    204 with no header and an empty body, or an error status (400, 404 or
    500) with the JSON content type and the body [{"error": msg}]. *)
Theorem TrackEvent_response r w :
  w_resp w = fresh_recorder ->
  (w_resp (TrackEvent r w).2 =
     {| rec_code := Some StatusNoContent; rec_header := ∅; pending_header := ∅; rec_body := "" |}) \/
  (exists status msg,
     w_resp (TrackEvent r w).2 =
     {| rec_code := Some status; rec_header := {["Content-Type" := ContentTypeJSON]};
        pending_header := {["Content-Type" := ContentTypeJSON]};
        rec_body := ErrorResponse_json msg |} /\
     status ∈ [StatusBadRequest; StatusNotFound; StatusInternalServerError]).
Proof.
  intros Hf. destruct (TrackEvent_viewP r w).
  1-4: right; eexists _, _; (split; [by apply rendered_fresh | repeat constructor]).
  - left. cbn [w_resp]. by rewrite Hf.
Qed.

Section WithLaws.
Context `{!TrackClientLaws C}.

(** C9: the client objects change only through a successful Track: a
    request that is rejected, or whose Track fails, leaves every client
    object as it was. *)
Theorem TrackEvent_clients_unchanged r w :
  ~ track_contract r w Tracked ->
  forall ref, w_clients (TrackEvent r w).2 ref = w_clients w ref.
Proof.
  intros Hnot ref'. destruct (TrackEvent_viewP r w) as
    [| | |ref body k c' err Hc Hb Hk Hne HT|ref body k c' Hc Hb Hk Hne HT];
    cbn [rendered w_clients]; try done.
  - apply Track_error_pure in HT as ->. unfold upd. by case_decide; subst.
  - destruct Hnot. by eapply c_tracked.
Qed.
End WithLaws.

Lemma serve_cons r rs w :
  serve (r :: rs) w =
  (w_resp (TrackEvent r (new_response w)).2 :: (serve rs (TrackEvent r (new_response w)).2).1,
   (serve rs (TrackEvent r (new_response w)).2).2).
Proof.
  cbn [serve]. unfold st_bind, st_modify, st_get, st_ret.
  destruct (TrackEvent r (new_response w)) as [[] w']. cbn. by destruct (serve rs w').
Qed.

End HandlerProps.

Lemma queue_Track_ok c k uc tags c' :
  queue_Track c k uc tags = (c', None) ->
  k ∈ qc_events c /\
  c' = {| qc_events := qc_events c;
          qc_queue := qc_queue c ++ [{| ue_key := k; ue_user := uc; ue_tags := tags |}] |}.
Proof. unfold queue_Track. case_decide; [|done]. intros [= <-]. done. Qed.

Lemma TrackEvent_anonymous r (w : World (C := QueueClient)) :
  anonymous_queues w -> anonymous_queues (TrackEvent r w).2.
Proof.
  intros Hinv ref'. destruct (TrackEvent_viewP r w) as
    [| | |ref body k c' err Hc Hb Hk Hne HT|ref body k c' Hc Hb Hk Hne HT];
    cbn [rendered w_clients]; try apply Hinv.
  - apply Track_error_pure in HT as ->. unfold upd. case_decide; subst; apply Hinv.
  - pose proof (ParseRequestBody_invisible r trackBody_zero trackBody_invisible) as Hz.
    rewrite Hb in Hz. cbn in Hz. subst body.
    apply queue_Track_ok in HT as [_ ->]. unfold upd. case_decide; [|apply Hinv].
    subst. cbn. apply Forall_app. split; [apply Hinv|]. repeat constructor.
Qed.

(** C11: invariant.  Starting from client objects whose queued events are
    all anonymous, any sequence of requests keeps them so: no event the
    handler tracks ever carries a user ID, attributes or tags. *)
Theorem serve_anonymous rs (w : World (C := QueueClient)) :
  anonymous_queues w -> anonymous_queues (serve rs w).2.
Proof.
  revert w. induction rs as [|r rs IH]; intros w Hinv; [done|].
  rewrite serve_cons. apply IH, TrackEvent_anonymous, Hinv.
Qed.

(** One tracked request appends one event to the bound client's queue. *)
Lemma TrackEvent_queue_known r (w : World (C := QueueClient)) ref body k :
  r_client r = Some ref -> ParseRequestBody r trackBody_zero = (body, None) ->
  Get (Query (r_rawquery r)) "eventKey" = k -> k <> "" -> k ∈ qc_events (w_clients w ref) ->
  w_clients (TrackEvent r w).2 =
  upd (w_clients w) ref
    {| qc_events := qc_events (w_clients w ref);
       qc_queue := qc_queue (w_clients w ref) ++
         [{| ue_key := k; ue_user := {| ID := userID body; Attributes := userAttributes body |};
             ue_tags := eventTags body |}] |}.
Proof.
  intros Hc Hb Hk Hne Hin.
  assert (HT : Track (w_clients w ref) k {| ID := userID body; Attributes := userAttributes body |}
                 (eventTags body) = (_, None)) by (apply queue_Track_known, Hin).
  by run_track.
Qed.

(** C12: tracking is not idempotent.  The same request handled twice
    queues the same event twice. *)
Theorem serve_twice_tracks_twice r (w : World (C := QueueClient)) ref body k :
  r_client r = Some ref -> ParseRequestBody r trackBody_zero = (body, None) ->
  Get (Query (r_rawquery r)) "eventKey" = k -> k <> "" -> k ∈ qc_events (w_clients w ref) ->
  qc_queue (w_clients (serve [r; r] w).2 ref) =
  qc_queue (w_clients w ref) ++
    [{| ue_key := k; ue_user := {| ID := userID body; Attributes := userAttributes body |};
        ue_tags := eventTags body |};
     {| ue_key := k; ue_user := {| ID := userID body; Attributes := userAttributes body |};
        ue_tags := eventTags body |}].
Proof.
  intros Hc Hb Hk Hne Hin. rewrite !serve_cons. cbn [serve st_ret snd].
  rewrite (TrackEvent_queue_known r (new_response (TrackEvent r (new_response w)).2) ref body k);
    cbn [new_response w_clients];
    rewrite ?(TrackEvent_queue_known r (new_response w) ref body k), ?upd_eq; try done.
  cbn. by rewrite <- app_assoc.
Qed.

Lemma TrackEvent_no_client_witness :
  TrackEvent (fx_request None "eventKey=purchase" fx_body) fx_world =
  (tt, rendered StatusInternalServerError "optlyClient not available" fx_world).
Proof. apply TrackEvent_no_client. reflexivity. Defined.

Lemma TrackEvent_bad_body_witness :
  TrackEvent (fx_request (Some 0) "eventKey=purchase" "[1,") fx_world =
  (tt, rendered StatusBadRequest "error parsing request body" fx_world).
Proof.
  apply (TrackEvent_bad_body _ _ 0 trackBody_zero (Errorf "error parsing request body"));
    vm_compute; reflexivity.
Defined.

Lemma TrackEvent_missing_eventKey_witness :
  TrackEvent (fx_request (Some 0) "" fx_body) fx_world =
  (tt, rendered StatusBadRequest "missing required path parameter: eventKey" fx_world).
Proof. apply (TrackEvent_missing_eventKey _ _ 0 trackBody_zero); vm_compute; reflexivity. Defined.

Lemma TrackEvent_tracked_witness :
  TrackEvent (fx_request (Some 0) "eventKey=purchase" fx_body) fx_world =
  (tt, {| w_clients := upd (w_clients fx_world) 0 fx_client_after;
          w_resp := WriteHeader StatusNoContent fresh_recorder;
          w_trace := [ETrack 0 "purchase" fx_anonymous None None] ++
            log_effects (Msg (Str "eventKey" "purchase" (Zerolog.Debug fx_logger)) "tracking event") ++
            [EWriteHeader StatusNoContent] |}).
Proof.
  refine (eq_trans (TrackEvent_tracked _ _ 0 trackBody_zero "purchase" fx_client_after
                      _ _ _ _ _) _); vm_compute; first [reflexivity | congruence].
Defined.

Lemma TrackEvent_track_failed_witness :
  TrackEvent (fx_request (Some 0) "eventKey=refund" fx_body) fx_world =
  (tt, rendered StatusNotFound "event with key refund not found"
         {| w_clients := upd (w_clients fx_world) 0 fx_client;
            w_resp := fresh_recorder;
            w_trace := [ETrack 0 "refund" fx_anonymous None
                               (Some (Errorf "event with key refund not found"))] ++
              log_effects (Msg (Str "eventKey" "refund"
                                  (Err (Errorf "event with key refund not found")
                                     (Zerolog.Error fx_logger))) "error tracking event") |}).
Proof.
  refine (eq_trans (TrackEvent_track_failed _ _ 0 trackBody_zero "refund" fx_client
                      (Errorf "event with key refund not found") _ _ _ _ _) _);
    vm_compute; first [reflexivity | congruence].
Defined.


Lemma TrackEvent_refines_contract_witness :
  exists v, track_contract (fx_request (Some 0) "eventKey=purchase" fx_body) fx_world v /\
    rec_code (w_resp (TrackEvent (fx_request (Some 0) "eventKey=purchase" fx_body) fx_world).2) =
      Some (verdict_status v) /\
    count_tracks (w_trace (TrackEvent (fx_request (Some 0) "eventKey=purchase" fx_body) fx_world).2) =
      count_tracks (w_trace fx_world) + (if verdict_tracks v then 1 else 0).
Proof. apply TrackEvent_refines_contract. reflexivity. Defined.

Lemma TrackEvent_frame_witness :
  w_clients (TrackEvent (fx_request (Some 0) "eventKey=purchase" fx_body) fx_world).2 1 =
  w_clients fx_world 1.
Proof. apply TrackEvent_frame. vm_compute. congruence. Defined.

Lemma TrackEvent_clients_unchanged_witness :
  w_clients (TrackEvent (fx_request (Some 0) "eventKey=refund" fx_body) fx_world).2 0 =
  w_clients fx_world 0.
Proof.
  apply TrackEvent_clients_unchanged. intros Hc. inversion Hc as [| | | |ref b k c' Hr Hb Hk Hne HT].
  subst. vm_compute in Hr. injection Hr as <-. vm_compute in Hb. injection Hb as <-.
  vm_compute in HT. congruence.
Defined.

Lemma serve_anonymous_witness :
  anonymous_queues
    (serve [fx_request (Some 0) "eventKey=purchase" fx_body;
            fx_request (Some 1) "eventKey=refund" fx_body;
            fx_request (Some 0) "eventKey=purchase" "[1,"] fx_world).2.
Proof. apply serve_anonymous. intros ref. vm_compute. constructor. Defined.

Lemma serve_twice_tracks_twice_witness :
  qc_queue (w_clients (serve [fx_request (Some 0) "eventKey=purchase" fx_body;
                              fx_request (Some 0) "eventKey=purchase" fx_body] fx_world).2 0) =
  qc_queue (w_clients fx_world 0) ++
    [{| ue_key := "purchase"; ue_user := {| ID := userID trackBody_zero;
                                            Attributes := userAttributes trackBody_zero |};
        ue_tags := eventTags trackBody_zero |};
     {| ue_key := "purchase"; ue_user := {| ID := userID trackBody_zero;
                                            Attributes := userAttributes trackBody_zero |};
        ue_tags := eventTags trackBody_zero |}].
Proof.
  apply (serve_twice_tracks_twice _ _ 0 trackBody_zero "purchase");
    [reflexivity | vm_compute; reflexivity | vm_compute; reflexivity | vm_compute; congruence |].
  vm_compute. reflexivity.
Defined.

Lemma TrackEvent_track_failed_log_witness :
  filter is_log (w_trace (TrackEvent (fx_request (Some 0) "eventKey=refund" fx_body) fx_world).2) =
  filter is_log (w_trace fx_world) ++
  (if should fx_logger ErrorLevel
   then [ELog {| le_level := ErrorLevel;
                 le_fields := lg_context fx_logger ++
                   [(ErrorFieldName, "event with key refund not found"); ("eventKey", "refund")];
                 le_message := "error tracking event" |}]
   else []).
Proof.
  refine (eq_trans (TrackEvent_track_failed_log _ _ 0 trackBody_zero "refund" fx_client
                      (Errorf "event with key refund not found") _ _ _ _ _) _);
    vm_compute; first [reflexivity | congruence].
Defined.

Lemma TrackEvent_response_witness :
  (w_resp (TrackEvent (fx_request (Some 0) "" fx_body) fx_world).2 =
     {| rec_code := Some StatusNoContent; rec_header := ∅; pending_header := ∅; rec_body := "" |}) \/
  (exists status msg,
     w_resp (TrackEvent (fx_request (Some 0) "" fx_body) fx_world).2 =
     {| rec_code := Some status; rec_header := {["Content-Type" := ContentTypeJSON]};
        pending_header := {["Content-Type" := ContentTypeJSON]};
        rec_body := ErrorResponse_json msg |} /\
     status ∈ [StatusBadRequest; StatusNotFound; StatusInternalServerError]).
Proof. apply TrackEvent_response. reflexivity. Defined.

Lemma TrackEvent_tracked_log_witness :
  filter is_log (w_trace (TrackEvent (fx_request (Some 0) "eventKey=purchase" fx_body) fx_world).2) =
  filter is_log (w_trace fx_world) ++
  (if should fx_logger DebugLevel
   then [ELog {| le_level := DebugLevel; le_fields := lg_context fx_logger ++ [("eventKey", "purchase")];
                 le_message := "tracking event" |}]
   else []).
Proof.
  refine (eq_trans (TrackEvent_tracked_log _ _ 0 trackBody_zero "purchase" fx_client_after
                      _ _ _ _ _) _);
    vm_compute; first [reflexivity | congruence].
Defined.

Lemma TrackEvent_encoded_eventKey_witness :
  filter is_track (w_trace (TrackEvent (fx_request (Some 0) (Encode {["eventKey" := ["a&b=c"]]}) fx_body)
                                       fx_world).2) =
  filter is_track (w_trace fx_world) ++
  [ETrack 0 "a&b=c" {| ID := userID trackBody_zero; Attributes := userAttributes trackBody_zero |}
     (eventTags trackBody_zero)
     (Track (w_clients fx_world 0) "a&b=c"
            {| ID := userID trackBody_zero; Attributes := userAttributes trackBody_zero |}
            (eventTags trackBody_zero)).2].
Proof.
  apply (TrackEvent_encoded_eventKey _ _ 0 trackBody_zero "a&b=c");
    [reflexivity | vm_compute; reflexivity | reflexivity | discriminate].
Defined.
