(* ===== verification/Server.v ===== *)
(** * The HTTP server: concurrent requests on shared client objects

    net/http serves each request on its own goroutine, so the handlers of
    concurrent requests interleave.  What they share is the SDK client
    object the middleware binds to them; each has its own response writer
    and logger.  [TrackEvent] touches the shared object once, in
    [optlyClient.Track], which the SDK makes atomic (its event processor
    queues the event under its own synchronisation).

    A [Thread] is one request in flight, in one of the phases of the
    handler ([Handlers.plan], Track, [Handlers.after_track]); a [Server]
    holds the shared client objects and the threads, and [server_step]
    lets any thread take its next step.  [sv_lin] records the order in
    which threads called Track.

    The theorem of the file is serializability: every complete
    interleaving ends with the client objects and the responses of the
    sequential server [Handlers.serve] on some ordering of the requests.
    The sequential run is described by [seq_resps] and [replay].  With
    the reference client, the other theorems show that under any
    interleaving the events queued stay anonymous and each client's queue
    grows by at most one event per request bound to it. *)

From S2P Require Import Prelude Http Logger Json UrlQuery GoDecode Client Handlers.

Local Open Scope string_scope.
Local Open Scope st_scope.
Local Open Scope list_scope.

Section Server.
Context {C : Type} `{TrackClient C}.
Implicit Types (w : @World C) (cs : ClientRef -> C).

(** ** The sequential reference *)

Definition fresh_world (cs : ClientRef -> C) : World :=
  {| w_clients := cs; w_resp := fresh_recorder; w_trace := [] |}.

(** What one request answers, and what it leaves in the client objects,
    when handled alone on the client objects [cs]. *)
Definition seq_resp (cs : ClientRef -> C) (r : Request) : Recorder :=
  w_resp (TrackEvent r (fresh_world cs)).2.

Definition track_effect (cs : ClientRef -> C) (r : Request) : ClientRef -> C :=
  w_clients (TrackEvent r (fresh_world cs)).2.

Fixpoint replay (cs : ClientRef -> C) (rs : list Request) : ClientRef -> C :=
  match rs with
  | [] => cs
  | r :: rs' => replay (track_effect cs r) rs'
  end.

Fixpoint seq_resps (cs : ClientRef -> C) (rs : list Request) : list Recorder :=
  match rs with
  | [] => []
  | r :: rs' => seq_resp cs r :: seq_resps (track_effect cs r) rs'
  end.

(** The requests of the threads [ids], in that order. *)
Definition reqs_of (rs : list Request) (ids : list nat) : list Request :=
  omap (fun i => rs !! i) ids.

Definition rejected (r : Request) : Prop := exists status err, plan r = Reject status err.

(** ** Requests in flight *)

Inductive Phase :=
  | Arrived                          (** the handler has not run yet *)
  | Calling (ref : ClientRef) (eventKey : string) (uc : UserContext) (tags : GoMap)
                                     (** the checks passed; Track is next *)
  | Returned (eventKey : string) (err : option GoError)
                                     (** Track returned [err] *)
  | Finished.                        (** the handler returned *)

Record Thread := {
  th_req : Request;
  th_phase : Phase;
  th_resp : Recorder;                (** the request's own response writer *)
  th_trace : list Effect             (** the effects of this request *)
}.

Record Server := {
  sv_clients : ClientRef -> C;       (** the shared client objects *)
  sv_threads : list Thread;
  sv_lin : list nat                  (** the threads, in the order they called Track *)
}.

Definition arrive (r : Request) : Thread :=
  {| th_req := r; th_phase := Arrived; th_resp := fresh_recorder; th_trace := [] |}.

Definition init_server (cs : ClientRef -> C) (rs : list Request) : Server :=
  {| sv_clients := cs; sv_threads := arrive <$> rs; sv_lin := [] |}.

(** The world the code of thread [t] runs in. *)
Definition local_world (cs : ClientRef -> C) (t : Thread) : World :=
  {| w_clients := cs; w_resp := th_resp t; w_trace := th_trace t |}.

(** Thread [t] after running local code [m], in phase [ph]. *)
Definition run_local (m : St World unit) (cs : ClientRef -> C) (t : Thread) (ph : Phase) : Thread :=
  let w := (m (local_world cs t)).2 in
  {| th_req := th_req t; th_phase := ph; th_resp := w_resp w; th_trace := w_trace w |}.

Definition set_thread (s : Server) (i : nat) (t : Thread) : Server :=
  {| sv_clients := sv_clients s; sv_threads := <[i := t]> (sv_threads s); sv_lin := sv_lin s |}.

(** The Track step: the atomic call on the shared client object. *)
Definition track_step (s : Server) (i : nat) (t : Thread)
    (ref : ClientRef) (k : string) (uc : UserContext) (tags : GoMap) : Server :=
  let '(err, w) := client_Track ref k uc tags (local_world (sv_clients s) t) in
  {| sv_clients := w_clients w;
     sv_threads := <[i := {| th_req := th_req t; th_phase := Returned k err;
                             th_resp := w_resp w; th_trace := w_trace w |}]> (sv_threads s);
     sv_lin := sv_lin s ++ [i] |}.

(** One step of one thread. *)
Inductive server_step : Server -> Server -> Prop :=
  | step_reject s i t status err :
      sv_threads s !! i = Some t -> th_phase t = Arrived ->
      plan (th_req t) = Reject status err ->
      server_step s (set_thread s i (run_local (RenderError err status) (sv_clients s) t Finished))
  | step_checked s i t ref k uc tags :
      sv_threads s !! i = Some t -> th_phase t = Arrived ->
      plan (th_req t) = CallTrack ref k uc tags ->
      server_step s (set_thread s i {| th_req := th_req t; th_phase := Calling ref k uc tags;
                                       th_resp := th_resp t; th_trace := th_trace t |})
  | step_track s i t ref k uc tags :
      sv_threads s !! i = Some t -> th_phase t = Calling ref k uc tags ->
      server_step s (track_step s i t ref k uc tags)
  | step_finish s i t k err :
      sv_threads s !! i = Some t -> th_phase t = Returned k err ->
      server_step s (set_thread s i (run_local (after_track (th_req t) k err) (sv_clients s) t Finished)).

Definition all_finished (s : Server) : Prop :=
  Forall (fun t => th_phase t = Finished) (sv_threads s).

(** The next step of thread [i], as a function: none once it returned. *)
Definition thread_step (s : Server) (i : nat) : option Server :=
  t ← sv_threads s !! i;
  match th_phase t with
  | Arrived =>
      match plan (th_req t) with
      | Reject status err =>
          Some (set_thread s i (run_local (RenderError err status) (sv_clients s) t Finished))
      | CallTrack ref k uc tags =>
          Some (set_thread s i {| th_req := th_req t; th_phase := Calling ref k uc tags;
                                  th_resp := th_resp t; th_trace := th_trace t |})
      end
  | Calling ref k uc tags => Some (track_step s i t ref k uc tags)
  | Returned k err =>
      Some (set_thread s i (run_local (after_track (th_req t) k err) (sv_clients s) t Finished))
  | Finished => None
  end.

(** A schedule: the threads that take the next steps, in order. *)
Fixpoint run_schedule (s : Server) (sched : list nat) : option Server :=
  match sched with
  | [] => Some s
  | i :: sched' => s' ← thread_step s i; run_schedule s' sched'
  end.

(** ** The invariant of the concurrent server

    Relative to the initial client objects [cs0] and the requests [rs]:
    the client objects are those the Track calls made so far leave, in the
    order they were made; a thread that called Track at position [p] of
    [sv_lin] got the result of Track on the client objects the first [p]
    calls left; a finished thread has the answer its request gets alone
    on those client objects (on any, when it was rejected). *)
Definition clients_at (cs0 : ClientRef -> C) (rs : list Request) (lin : list nat) (p : nat)
    : ClientRef -> C :=
  replay cs0 (reqs_of rs (take p lin)).

Definition thread_ok (cs0 : ClientRef -> C) (rs : list Request) (lin : list nat) (i : nat)
    (t : Thread) : Prop :=
  match th_phase t with
  | Arrived => (i ∉ lin) /\ th_resp t = fresh_recorder
  | Calling ref k uc tags =>
      (i ∉ lin) /\ plan (th_req t) = CallTrack ref k uc tags /\ th_resp t = fresh_recorder
  | Returned k err =>
      exists p ref uc tags, lin !! p = Some i /\ plan (th_req t) = CallTrack ref k uc tags /\
        th_resp t = fresh_recorder /\ err = (Track (clients_at cs0 rs lin p ref) k uc tags).2
  | Finished =>
      ((i ∉ lin) /\ rejected (th_req t) /\ th_resp t = seq_resp cs0 (th_req t)) \/
      (exists p, lin !! p = Some i /\ th_resp t = seq_resp (clients_at cs0 rs lin p) (th_req t))
  end.

Record server_inv (cs0 : ClientRef -> C) (rs : list Request) (s : Server) : Prop := {
  inv_len : length (sv_threads s) = length rs;
  inv_req : forall i t, sv_threads s !! i = Some t -> rs !! i = Some (th_req t);
  inv_nodup : NoDup (sv_lin s);
  inv_bound : Forall (fun i => i < length rs) (sv_lin s);
  inv_clients : sv_clients s = replay cs0 (reqs_of rs (sv_lin s));
  inv_threads : forall i t, sv_threads s !! i = Some t -> thread_ok cs0 rs (sv_lin s) i t
}.

End Server.

(** ** A concrete run

    Three concurrent requests on one reference client that knows the
    event [purchase]: one tracks [purchase], one tracks the unknown
    [refund], one has no client bound.  The schedule interleaves the two
    Track calls in the opposite order of the requests' arrival. *)

Definition fx_server_reqs : list Request :=
  [fx_request (Some 0) "eventKey=purchase" fx_body;
   fx_request (Some 0) "eventKey=refund" fx_body;
   fx_request None "eventKey=purchase" fx_body].

Definition fx_server_clients : ClientRef -> QueueClient := fun _ => fx_client.

Definition fx_schedule : list nat := [0; 1; 1; 0; 2; 0; 1].

Definition fx_server_final : Server (C := QueueClient) :=
  default (init_server fx_server_clients fx_server_reqs)
          (run_schedule (init_server fx_server_clients fx_server_reqs) fx_schedule).

(** With the reference client: the queues hold only anonymous events, and
    every thread about to call Track carries an anonymous user and no
    tags. *)
Definition anonymous_server (s : Server (C := QueueClient)) : Prop :=
  (forall ref, Forall anonymous (qc_queue (sv_clients s ref))) /\
  (forall i t ref k uc tags, sv_threads s !! i = Some t -> th_phase t = Calling ref k uc tags ->
     uc = {| ID := ""; Attributes := None |} /\ tags = None).

Section ServerProps.
Context {C : Type} `{TrackClient C}.
Implicit Types (w : @World C) (cs : ClientRef -> C) (s : @Server C).

(** ** Lemmas: the sequential server *)

Lemma TrackEvent_fresh r w :
  w_resp w = fresh_recorder ->
  w_clients (TrackEvent r w).2 = track_effect (w_clients w) r /\
  w_resp (TrackEvent r w).2 = seq_resp (w_clients w) r.
Proof. intros Hf. by apply TrackEvent_proj. Qed.

(** [serve] answers [seq_resps] and leaves the client objects of [replay]. *)
Lemma serve_seq rs w :
  (serve rs w).1 = seq_resps (w_clients w) rs /\
  w_clients (serve rs w).2 = replay (w_clients w) rs.
Proof.
  revert w. induction rs as [|r rs IH]; intros w; [done|]. rewrite serve_cons. cbn [fst snd].
  destruct (TrackEvent_fresh r (new_response w)) as [Hc Hr]; [done|].
  destruct (IH (TrackEvent r (new_response w)).2) as [IH1 IH2].
  rewrite IH1, IH2, Hc, Hr. done.
Qed.

Lemma replay_app cs l1 l2 : replay cs (l1 ++ l2) = replay (replay cs l1) l2.
Proof. revert cs. induction l1 as [|r l1 IH]; intros cs; [done|]. apply IH. Qed.

Lemma seq_resps_app cs l1 l2 :
  seq_resps cs (l1 ++ l2) = seq_resps cs l1 ++ seq_resps (replay cs l1) l2.
Proof. revert cs. induction l1 as [|r l1 IH]; intros cs; [done|]. cbn. by rewrite IH. Qed.

(** The [p]-th answer is the one given on the client objects the first [p]
    requests leave. *)
Lemma seq_resps_lookup cs rs p r :
  rs !! p = Some r -> seq_resps cs rs !! p = Some (seq_resp (replay cs (take p rs)) r).
Proof.
  revert cs p. induction rs as [|r' rs IH]; intros cs p Hp; [done|].
  destruct p as [|p]; cbn in Hp |- *; [by simplify_eq|]. by apply IH.
Qed.

(** A rejected request leaves the client objects as they are, and its
    answer does not depend on them. *)
Lemma reject_effect cs cs' r status err :
  plan r = Reject status err ->
  track_effect cs r = cs /\ seq_resp cs r = seq_resp cs' r.
Proof.
  intros Hp. unfold track_effect, seq_resp. rewrite !TrackEvent_phases, Hp, !RenderError_run.
  done.
Qed.

Lemma replay_rejected cs rs : Forall rejected rs -> replay cs rs = cs.
Proof.
  revert cs. induction rs as [|r rs IH]; intros cs Hall; [done|].
  apply Forall_cons in Hall as [(status & err & Hp) Hall]. cbn.
  rewrite (proj1 (reject_effect cs cs r status err Hp)). by apply IH.
Qed.

Lemma seq_resps_rejected cs cs' rs :
  Forall rejected rs -> seq_resps cs rs = map (seq_resp cs') rs.
Proof.
  revert cs. induction rs as [|r rs IH]; intros cs Hall; [done|].
  apply Forall_cons in Hall as [(status & err & Hp) Hall]. cbn.
  destruct (reject_effect cs cs' r status err Hp) as [-> ->]. by rewrite IH.
Qed.

(** The client objects a request that calls Track leaves. *)
Lemma track_effect_call cs r ref k uc tags :
  plan r = CallTrack ref k uc tags ->
  track_effect cs r = upd cs ref (Track (cs ref) k uc tags).1.
Proof.
  intros Hp. unfold track_effect. rewrite TrackEvent_phases, Hp, st_bind_run. unfold client_Track.
  change (w_clients (fresh_world cs)) with cs.
  destruct (Track (cs ref) k uc tags) as [c' err]. cbn [fst snd].
  match goal with |- w_clients (after_track _ _ _ ?w).2 = _ =>
    destruct (after_track_frame r k err w w eq_refl) as [-> _] end.
  reflexivity.
Qed.

(** ** Lemmas: the answers of the two phases *)

Lemma RenderError_resp err status w1 w2 :
  w_resp w1 = w_resp w2 -> w_resp (RenderError err status w1).2 = w_resp (RenderError err status w2).2.
Proof. intros Hr. rewrite !RenderError_run. cbn. by rewrite Hr. Qed.

Lemma seq_resp_reject cs r status err :
  plan r = Reject status err -> seq_resp cs r = w_resp (RenderError err status (fresh_world cs)).2.
Proof. intros Hp. unfold seq_resp. by rewrite TrackEvent_phases, Hp. Qed.

Lemma seq_resp_call cs r ref k uc tags :
  plan r = CallTrack ref k uc tags ->
  seq_resp cs r = w_resp (after_track r k (Track (cs ref) k uc tags).2 (fresh_world cs)).2.
Proof.
  intros Hp. unfold seq_resp. rewrite TrackEvent_phases, Hp, st_bind_run. unfold client_Track.
  change (w_clients (fresh_world cs)) with cs.
  destruct (Track (cs ref) k uc tags) as [c' err]. cbn [fst snd].
  by apply after_track_frame.
Qed.

(** ** Lemmas: the invariant *)

Lemma reqs_of_app rs l1 l2 : reqs_of rs (l1 ++ l2) = reqs_of rs l1 ++ reqs_of rs l2.
Proof. apply omap_app. Qed.

Lemma clients_at_app cs0 rs lin i p :
  p < length lin -> clients_at cs0 rs (lin ++ [i]) p = clients_at cs0 rs lin p.
Proof. intros Hp. unfold clients_at. by rewrite take_app_le by lia. Qed.

Lemma clients_at_end cs0 rs lin i :
  clients_at cs0 rs (lin ++ [i]) (length lin) = replay cs0 (reqs_of rs lin).
Proof. unfold clients_at. by rewrite take_app_length. Qed.

(** A thread other than the one calling Track keeps its invariant. *)
Lemma thread_ok_app cs0 rs lin i j t :
  j <> i -> thread_ok cs0 rs lin j t -> thread_ok cs0 rs (lin ++ [i]) j t.
Proof.
  intros Hji. unfold thread_ok. destruct (th_phase t) as [|ref k uc tags|k err|].
  - intros [Hn Hr]. split; [|done]. rewrite elem_of_app, list_elem_of_singleton. tauto.
  - intros (Hn & Hp & Hr). split_and!; [|done..]. rewrite elem_of_app, list_elem_of_singleton. tauto.
  - intros (p & ref & uc & tags & Hl & Hp & Hr & He).
    pose proof (lookup_lt_Some _ _ _ Hl).
    exists p, ref, uc, tags. rewrite lookup_app_l, clients_at_app by done. done.
  - intros [(Hn & Hrej & Hr)|(p & Hl & Hr)].
    + left. split; [|done]. rewrite elem_of_app, list_elem_of_singleton. tauto.
    + right. pose proof (lookup_lt_Some _ _ _ Hl).
      exists p. rewrite lookup_app_l, clients_at_app by done. done.
Qed.

Lemma init_inv cs0 rs : server_inv cs0 rs (init_server cs0 rs).
Proof.
  split; cbn.
  - apply length_fmap.
  - intros i t. rewrite list_lookup_fmap. by intros (r & Hr & ->)%fmap_Some.
  - constructor.
  - constructor.
  - reflexivity.
  - intros i t. rewrite list_lookup_fmap. intros (r & _ & ->)%fmap_Some.
    split; [apply not_elem_of_nil | reflexivity].
Qed.

(** A step of thread [i] that keeps its request, the Track order and the
    client objects keeps the invariant when the new thread satisfies it. *)
Lemma inv_set_thread cs0 rs s i t t' :
  server_inv cs0 rs s -> sv_threads s !! i = Some t -> th_req t' = th_req t ->
  thread_ok cs0 rs (sv_lin s) i t' -> server_inv cs0 rs (set_thread s i t').
Proof.
  intros Hinv Ht Hreq Hok. pose proof (lookup_lt_Some _ _ _ Ht).
  split; cbn; try apply Hinv.
  - rewrite length_insert. apply Hinv.
  - intros j tj. rewrite list_lookup_insert_Some. intros [(<- & -> & _)|[_ Hj]].
    + rewrite Hreq. by apply (inv_req _ _ _ Hinv i).
    + by apply (inv_req _ _ _ Hinv j).
  - intros j tj. rewrite list_lookup_insert_Some. intros [(<- & -> & _)|[_ Hj]]; [done|].
    by apply (inv_threads _ _ _ Hinv j).
Qed.

Lemma inv_reject cs0 rs s i t status err :
  server_inv cs0 rs s -> sv_threads s !! i = Some t -> th_phase t = Arrived ->
  plan (th_req t) = Reject status err ->
  server_inv cs0 rs (set_thread s i (run_local (RenderError err status) (sv_clients s) t Finished)).
Proof.
  intros Hinv Ht Hph Hp. eapply inv_set_thread; [done..|].
  pose proof (inv_threads _ _ _ Hinv i t Ht) as Hok. unfold thread_ok in Hok |- *.
  rewrite Hph in Hok. destruct Hok as [Hn Hr]. cbn [th_phase th_req th_resp run_local].
  left. split_and!; [done | by exists status, err |].
  rewrite (seq_resp_reject _ _ _ _ Hp). by apply RenderError_resp.
Qed.

Lemma inv_checked cs0 rs s i t ref k uc tags :
  server_inv cs0 rs s -> sv_threads s !! i = Some t -> th_phase t = Arrived ->
  plan (th_req t) = CallTrack ref k uc tags ->
  server_inv cs0 rs (set_thread s i {| th_req := th_req t; th_phase := Calling ref k uc tags;
                                       th_resp := th_resp t; th_trace := th_trace t |}).
Proof.
  intros Hinv Ht Hph Hp. eapply inv_set_thread; [done..|].
  pose proof (inv_threads _ _ _ Hinv i t Ht) as Hok. unfold thread_ok in Hok |- *.
  rewrite Hph in Hok. destruct Hok as [Hn Hr]. cbn. done.
Qed.

Lemma inv_finish cs0 rs s i t k err :
  server_inv cs0 rs s -> sv_threads s !! i = Some t -> th_phase t = Returned k err ->
  server_inv cs0 rs (set_thread s i (run_local (after_track (th_req t) k err) (sv_clients s) t Finished)).
Proof.
  intros Hinv Ht Hph. eapply inv_set_thread; [done..|].
  pose proof (inv_threads _ _ _ Hinv i t Ht) as Hok. unfold thread_ok in Hok |- *.
  rewrite Hph in Hok. destruct Hok as (p & ref & uc & tags & Hl & Hp & Hr & ->).
  cbn [th_phase th_req th_resp run_local]. right. exists p. split; [done|].
  rewrite (seq_resp_call _ _ _ _ _ _ Hp). exact (proj2 (after_track_frame _ _ _ (local_world (sv_clients s) t)
                  (fresh_world (clients_at cs0 rs (sv_lin s) p)) Hr)).
Qed.

Lemma inv_track cs0 rs s i t ref k uc tags :
  server_inv cs0 rs s -> sv_threads s !! i = Some t -> th_phase t = Calling ref k uc tags ->
  server_inv cs0 rs (track_step s i t ref k uc tags).
Proof.
  intros Hinv Ht Hph. pose proof (inv_threads _ _ _ Hinv i t Ht) as Hok.
  unfold thread_ok in Hok. rewrite Hph in Hok. destruct Hok as (Hn & Hp & Hr).
  pose proof (inv_req _ _ _ Hinv i t Ht) as Hreq. pose proof (lookup_lt_Some _ _ _ Ht) as Hlt.
  unfold track_step, client_Track. cbn [local_world w_clients].
  destruct (Track (sv_clients s ref) k uc tags) as [c' err] eqn:HT.
  split; cbn [sv_threads sv_lin sv_clients w_clients w_resp w_trace].
  - rewrite length_insert. apply Hinv.
  - intros j tj. rewrite list_lookup_insert_Some.
    intros [(<- & <- & _)|[_ Hj]]; [done | by apply (inv_req _ _ _ Hinv j)].
  - apply NoDup_app. split_and!; [apply Hinv | | apply NoDup_singleton].
    intros x Hx ->%list_elem_of_singleton. done.
  - apply Forall_app. split; [apply Hinv|]. constructor; [|constructor].
    rewrite <- (inv_len _ _ _ Hinv). done.
  - rewrite reqs_of_app, replay_app. unfold reqs_of at 2. cbn. rewrite Hreq. cbn.
    rewrite <- (inv_clients _ _ _ Hinv), (track_effect_call _ _ _ _ _ _ Hp), HT. done.
  - intros j tj. rewrite list_lookup_insert_Some. intros [(<- & <- & _)|[Hji Hj]].
    + unfold thread_ok. cbn [th_phase th_req th_resp].
      exists (length (sv_lin s)), ref, uc, tags. split_and!; [| done | done |].
      * rewrite lookup_app_r, Nat.sub_diag by lia. done.
      * rewrite clients_at_end, <- (inv_clients _ _ _ Hinv), HT. done.
    + apply thread_ok_app; [done|]. by apply (inv_threads _ _ _ Hinv j).
Qed.

Lemma server_step_inv cs0 rs s s' :
  server_inv cs0 rs s -> server_step s s' -> server_inv cs0 rs s'.
Proof.
  intros Hinv Hstep. destruct Hstep;
    [eapply inv_reject | eapply inv_checked | eapply inv_track | eapply inv_finish]; eauto.
Qed.

(** Every configuration the server reaches satisfies the invariant. *)
Lemma reachable_inv cs0 rs s :
  rtc server_step (init_server cs0 rs) s -> server_inv cs0 rs s.
Proof.
  revert s. apply (rtc_ind_r (server_inv cs0 rs)); [apply init_inv|].
  intros s1 s2 _ Hstep IH. by eapply server_step_inv.
Qed.

(** ** Lemmas: requests of valid thread indices *)

Lemma reqs_of_lookup rs ids p :
  Forall (fun i => i < length rs) ids ->
  reqs_of rs ids !! p = ids !! p ≫= (fun i => rs !! i).
Proof.
  intros Hv. revert p. induction Hv as [|i ids' Hi _ IH]; intros p; [by destruct p|].
  destruct (lookup_lt_is_Some_2 rs i Hi) as [r Hr]. unfold reqs_of. cbn. rewrite Hr.
  destruct p as [|p]; [by cbn; rewrite Hr|]. apply IH.
Qed.

Lemma length_reqs_of rs ids :
  Forall (fun i => i < length rs) ids -> length (reqs_of rs ids) = length ids.
Proof.
  induction 1 as [|i ids' Hi _ IH]; [done|].
  destruct (lookup_lt_is_Some_2 rs i Hi) as [r Hr]. unfold reqs_of. cbn. rewrite Hr. cbn.
  by f_equal.
Qed.

Lemma take_reqs_of rs ids p :
  Forall (fun i => i < length rs) ids -> take p (reqs_of rs ids) = reqs_of rs (take p ids).
Proof.
  intros Hv. revert p. induction Hv as [|i ids' Hi _ IH]; intros p; [by destruct p|].
  destruct (lookup_lt_is_Some_2 rs i Hi) as [r Hr]. unfold reqs_of. cbn. rewrite Hr.
  destruct p as [|p]; [done|]. cbn. rewrite Hr. f_equal. apply IH.
Qed.

Lemma reqs_of_Forall2 rs ids :
  Forall (fun i => i < length rs) ids -> Forall2 (fun i r => rs !! i = Some r) ids (reqs_of rs ids).
Proof.
  induction 1 as [|i ids' Hi _ IH]; [constructor|].
  destruct (lookup_lt_is_Some_2 rs i Hi) as [r Hr]. unfold reqs_of. cbn. rewrite Hr.
  by constructor.
Qed.

Lemma length_seq_resps cs l : length (seq_resps cs l) = length l.
Proof. revert cs. induction l as [|r l IH]; intros cs; [done|]. cbn. by rewrite IH. Qed.

Lemma Forall2_reqs_of_map {B} (P : nat -> B -> Prop) (f : Request -> B) rs ids :
  Forall2 (fun i r => rs !! i = Some r) ids (reqs_of rs ids) ->
  (forall i r, i ∈ ids -> rs !! i = Some r -> P i (f r)) ->
  Forall2 P ids (map f (reqs_of rs ids)).
Proof.
  generalize (reqs_of rs ids). intros l H2 HP. induction H2 as [|i r ids' l' Hr _ IH]; [constructor|].
  cbn. constructor; [apply HP; [by left|done]|]. apply IH. intros j r' Hj. apply HP. by right.
Qed.

Lemma Forall_reqs_of (Q : Request -> Prop) rs ids :
  Forall2 (fun i r => rs !! i = Some r) ids (reqs_of rs ids) ->
  (forall i r, i ∈ ids -> rs !! i = Some r -> Q r) -> Forall Q (reqs_of rs ids).
Proof.
  generalize (reqs_of rs ids). intros l H2 HQ. induction H2 as [|i r ids' l' Hr _ IH]; [constructor|].
  constructor; [apply (HQ i); [by left|done]|]. apply IH. intros j r' Hj. apply HQ. by right.
Qed.

(** ** Serializability *)

Lemma finished_thread cs0 rs s i :
  server_inv cs0 rs s -> all_finished s -> i < length rs ->
  exists t r, sv_threads s !! i = Some t /\ rs !! i = Some r /\ th_req t = r /\
    thread_ok cs0 rs (sv_lin s) i t /\ th_phase t = Finished.
Proof.
  intros Hinv Hfin Hi. rewrite <- (inv_len _ _ _ Hinv) in Hi.
  destruct (lookup_lt_is_Some_2 _ _ Hi) as [t Ht].
  exists t, (th_req t). split_and!; [done | by eapply inv_req | done | by eapply inv_threads |].
  exact (Forall_lookup_1 _ _ _ _ Hfin Ht).
Qed.

(** A finished thread that never called Track was rejected, and answered
    what its request answers alone. *)
Lemma finished_rejected cs0 rs s j :
  server_inv cs0 rs s -> all_finished s -> j < length rs -> j ∉ sv_lin s ->
  exists t r, sv_threads s !! j = Some t /\ rs !! j = Some r /\ rejected r /\
    th_resp t = seq_resp cs0 r.
Proof.
  intros Hinv Hfin Hj Hn. destruct (finished_thread cs0 rs s j) as (t & r & Ht & Hr & <- & Hok & Hph); [done..|].
  unfold thread_ok in Hok. rewrite Hph in Hok.
  destruct Hok as [(_ & Hrej & Hresp)|(p & Hl & _)]; [by exists t, (th_req t)|].
  by destruct Hn; eapply list_elem_of_lookup_2.
Qed.

(** The thread that made the [p]-th Track call answered what its request
    answers alone on the client objects the first [p] calls left. *)
Lemma finished_tracked cs0 rs s p i :
  server_inv cs0 rs s -> all_finished s -> sv_lin s !! p = Some i ->
  exists t r, sv_threads s !! i = Some t /\ rs !! i = Some r /\
    th_resp t = seq_resp (clients_at cs0 rs (sv_lin s) p) r.
Proof.
  intros Hinv Hfin Hl. pose proof (Forall_lookup_1 _ _ _ _ (inv_bound _ _ _ Hinv) Hl) as Hi.
  destruct (finished_thread cs0 rs s i) as (t & r & Ht & Hr & <- & Hok & Hph); [done..|].
  unfold thread_ok in Hok. rewrite Hph in Hok.
  destruct Hok as [(Hn & _)|(p' & Hl' & Hresp)].
  - by destruct Hn; eapply list_elem_of_lookup_2.
  - exists t, (th_req t). split_and!; [done..|].
    by rewrite (NoDup_lookup _ _ _ _ (inv_nodup _ _ _ Hinv) Hl Hl').
Qed.

(** C20: serializability of the concurrent server.  However the steps of
    concurrent requests interleave, once every handler has returned, the
    client objects and the response of every request are those of the
    sequential server [serve] run on some ordering of the requests (the
    order in which they called Track, the rejected ones after): the
    handler's single Track call is its linearization point. *)
Theorem server_serializable cs0 rs s :
  rtc server_step (init_server cs0 rs) s -> all_finished s ->
  exists order reqs,
    order ≡ₚ seq 0 (length rs) /\
    Forall2 (fun i r => rs !! i = Some r) order reqs /\
    sv_clients s = w_clients (serve reqs (fresh_world cs0)).2 /\
    Forall2 (fun i resp => exists t, sv_threads s !! i = Some t /\ th_resp t = resp)
            order (serve reqs (fresh_world cs0)).1.
Proof.
  intros Hrtc Hfin. pose proof (reachable_inv cs0 rs s Hrtc) as Hinv.
  set (lin := sv_lin s). set (rej := filter (fun j => j ∉ lin) (seq 0 (length rs))).
  assert (Hvl : Forall (fun i => i < length rs) lin) by apply Hinv.
  assert (Hvr : Forall (fun i => i < length rs) rej).
  { apply Forall_forall. intros j (_ & Hj%elem_of_seq)%list_elem_of_filter. lia. }
  assert (Hrej : forall j, j ∈ rej -> exists t r, sv_threads s !! j = Some t /\ rs !! j = Some r /\
                   rejected r /\ th_resp t = seq_resp cs0 r).
  { intros j (Hn & Hj%elem_of_seq)%list_elem_of_filter. apply finished_rejected; [done..|lia|done]. }
  exists (lin ++ rej), (reqs_of rs (lin ++ rej)).
  destruct (serve_seq (reqs_of rs (lin ++ rej)) (fresh_world cs0)) as [Hresps Hcl].
  assert (Hall : Forall rejected (reqs_of rs rej)).
  { apply Forall_reqs_of; [by apply reqs_of_Forall2|]. intros j r Hj Hr.
    destruct (Hrej j Hj) as (t & r' & _ & Hr' & Hrj & _). rewrite Hr in Hr'. by simplify_eq. }
  split_and!.
  - apply NoDup_Permutation.
    + apply NoDup_app. split_and!; [apply Hinv | | apply NoDup_filter, NoDup_seq].
      intros x Hx (Hn & _)%list_elem_of_filter. done.
    + apply NoDup_seq.
    + intros x. unfold rej. rewrite elem_of_app, list_elem_of_filter, elem_of_seq. split.
      * intros [Hx|(_ & Hx)]; [|done]. rewrite Forall_forall in Hvl. specialize (Hvl x Hx).
        cbv beta in Hvl. lia.
      * intros Hx. destruct (decide (x ∈ lin)); [by left|]. right. split; [done|]. lia.
  - apply reqs_of_Forall2, Forall_app. done.
  - rewrite Hcl, reqs_of_app, replay_app. cbn [w_clients fresh_world].
    rewrite (replay_rejected _ _ Hall). apply Hinv.
  - rewrite Hresps, reqs_of_app, seq_resps_app. cbn [w_clients fresh_world].
    rewrite (seq_resps_rejected _ cs0 _ Hall). apply Forall2_app.
    + apply Forall2_same_length_lookup_2.
      { by rewrite length_seq_resps, length_reqs_of. }
      intros p i resp Hl Hresp. destruct (finished_tracked cs0 rs s p i) as (t & r & Ht & Hr & Htr); [done..|].
      exists t. split; [done|]. rewrite Htr.
      assert (HA : reqs_of rs lin !! p = Some r) by (by rewrite reqs_of_lookup, Hl).
      rewrite (seq_resps_lookup _ _ _ _ HA) in Hresp. injection Hresp as <-.
      unfold clients_at. by rewrite take_reqs_of.
    + apply Forall2_reqs_of_map; [by apply reqs_of_Forall2|].
      intros j r Hj Hr. destruct (Hrej j Hj) as (t & r' & Ht & Hr' & _ & Hresp).
      exists t. split; [done|]. rewrite Hr in Hr'. by simplify_eq.
Qed.

(** ** Schedules: an executable run is a run of [server_step] *)

Lemma thread_step_sound s i s' : thread_step s i = Some s' -> server_step s s'.
Proof.
  unfold thread_step. destruct (sv_threads s !! i) as [t|] eqn:Ht; [|done]. cbn.
  destruct (th_phase t) as [|ref k uc tags|k err|] eqn:Hph; [|..|done].
  - destruct (plan (th_req t)) eqn:Hp; intros [= <-]; [eapply step_reject | eapply step_checked]; eauto.
  - intros [= <-]. by eapply step_track.
  - intros [= <-]. by eapply step_finish.
Qed.

Lemma run_schedule_nsteps s sched s' :
  run_schedule s sched = Some s' -> nsteps server_step (length sched) s s'.
Proof.
  revert s. induction sched as [|i sched IH]; intros s; cbn; [intros [= <-]; constructor|].
  destruct (thread_step s i) as [s1|] eqn:Hs; [|done]. cbn. intros Hr.
  econstructor; [by apply (thread_step_sound s i) | by apply IH].
Qed.

End ServerProps.

(** ** The anonymous events under concurrency *)

(** The checks only let through the zero [trackBody]: the arguments of
    every Track call are an anonymous user and no tags. *)
Lemma plan_anonymous r ref k uc tags :
  plan r = CallTrack ref k uc tags -> uc = {| ID := ""; Attributes := None |} /\ tags = None.
Proof.
  pose proof (ParseRequestBody_invisible r trackBody_zero trackBody_invisible) as Hz. unfold plan.
  destruct (parseContext r); [done|].
  destruct (ParseRequestBody r trackBody_zero) as [body [err|]]; [done|]. cbn in Hz. subst body.
  destruct (String.eqb _ _); [done|]. intros [= _ _ <- <-]. done.
Qed.

(** A step that changes one thread keeps the property when the new thread
    is not about to call Track with other arguments. *)
Lemma anonymous_server_set s i t' :
  anonymous_server s ->
  (forall ref k uc tags, th_phase t' = Calling ref k uc tags ->
     uc = {| ID := ""; Attributes := None |} /\ tags = None) ->
  anonymous_server (set_thread s i t').
Proof.
  intros [Hq Hc] Ht'. split; [apply Hq|]. intros j tj ref k uc tags. cbn [set_thread sv_threads].
  rewrite list_lookup_insert_Some. intros [(<- & <- & _)|[_ Hj]] Hph; [by eapply Ht' | by eapply Hc].
Qed.

Lemma anonymous_server_step s s' : anonymous_server s -> server_step s s' -> anonymous_server s'.
Proof.
  intros Ha Hstep. destruct Hstep as [s i t status err Ht Hph Hp|s i t ref k uc tags Ht Hph Hp
                                     |s i t ref k uc tags Ht Hph|s i t k err Ht Hph].
  - by apply anonymous_server_set.
  - apply anonymous_server_set; [done|]. cbn. intros ? ? ? ? [= <- <- <- <-]. by eapply plan_anonymous.
  - destruct Ha as [Hq Hc]. destruct (Hc i t ref k uc tags Ht Hph) as [-> ->].
    unfold track_step, client_Track. cbn [local_world w_clients]. change Track with queue_Track.
    destruct (queue_Track (sv_clients s ref) k _ None) as [c' err] eqn:HT.
    split; cbn [sv_clients sv_threads w_clients].
    + intros ref'. unfold upd. case_decide as Href; [subst ref'|apply Hq].
      unfold queue_Track in HT. case_decide; simplify_eq; [|apply Hq].
      cbn. apply Forall_app. split; [apply Hq|]. repeat constructor.
    + intros j tj ref' k' uc' tags'. rewrite list_lookup_insert_Some.
      intros [(<- & <- & _)|[_ Hj]] Hph'; [done | by eapply Hc].
  - by apply anonymous_server_set.
Qed.

(** C21: the anonymous events, under concurrency.  With the reference
    client, starting from queues of anonymous events, every configuration
    the concurrent server reaches, whatever the interleaving, still has only
    anonymous events queued: the unexported fields of [trackBody] lose the
    user and the tags of every concurrent request too. *)
Theorem server_anonymous cs0 rs s :
  (forall ref, Forall anonymous (qc_queue (cs0 ref))) ->
  rtc server_step (init_server cs0 rs) s ->
  forall ref, Forall anonymous (qc_queue (sv_clients s ref)).
Proof.
  intros H0 Hrtc. enough (Ha : anonymous_server s) by apply Ha.
  revert s Hrtc. apply (rtc_ind_r anonymous_server).
  - split; [done|]. intros i t ref k uc tags. cbn. rewrite list_lookup_fmap.
    intros (r & _ & ->)%fmap_Some. discriminate.
  - intros s1 s2 _ Hstep IH. by eapply anonymous_server_step.
Qed.

(** ** At most one event per request under concurrency *)

Lemma plan_client r ref k uc tags : plan r = CallTrack ref k uc tags -> r_client r = Some ref.
Proof.
  unfold plan, parseContext. destruct (r_client r) as [c|]; [|done].
  destruct (ParseRequestBody r trackBody_zero) as [body [err|]]; [done|].
  destruct (String.eqb _ _); [done|]. by intros [= -> _ _ _].
Qed.

(** Handled alone, a request adds at most one event, and only to the
    client bound to it. *)
Lemma track_effect_queue (cs : ClientRef -> QueueClient) r ref :
  length (qc_queue (track_effect cs r ref)) <=
  length (qc_queue (cs ref)) + length (filter (fun r' => r_client r' = Some ref) [r]).
Proof.
  destruct (plan r) as [status err|ref' k uc tags] eqn:Hp.
  - rewrite (proj1 (reject_effect cs cs r status err Hp)). lia.
  - rewrite (track_effect_call cs r ref' k uc tags Hp). apply plan_client in Hp.
    unfold upd. case_decide as Hr; [subst ref'|lia].
    rewrite filter_cons_True by done. change Track with queue_Track.
    pose proof (queue_Track_length (cs ref) k uc tags). cbn [length filter]. lia.
Qed.

Lemma replay_queue (cs : ClientRef -> QueueClient) l ref :
  length (qc_queue (replay cs l ref)) <=
  length (qc_queue (cs ref)) + length (filter (fun r => r_client r = Some ref) l).
Proof.
  revert cs. induction l as [|r l IH]; intros cs; cbn [replay]; [lia|].
  rewrite (filter_app _ [r] l) by done. pose proof (track_effect_queue cs r ref).
  specialize (IH (track_effect cs r)). rewrite length_app. lia.
Qed.

Lemma reqs_of_seq_shift r rs j n :
  reqs_of (r :: rs) (seq (S j) n) = reqs_of rs (seq j n).
Proof. revert j. induction n as [|n IH]; intros j; [done|]. unfold reqs_of in *. cbn. by rewrite IH. Qed.

Lemma reqs_of_seq rs : reqs_of rs (seq 0 (length rs)) = rs.
Proof.
  induction rs as [|r rs IH]; [done|]. cbn [length seq].
  change (reqs_of (r :: rs) (0 :: seq 1 (length rs))) with (r :: reqs_of (r :: rs) (seq 1 (length rs))).
  by rewrite reqs_of_seq_shift, IH.
Qed.

Lemma omap_cons {A B} (f : A -> option B) x l :
  omap f (x :: l) = match f x with Some y => y :: omap f l | None => omap f l end.
Proof. reflexivity. Qed.

Lemma filter_omap_submseteq {A B} (P : B -> Prop) `{forall x, Decision (P x)} (f : A -> option B) l k :
  l ⊆+ k -> length (filter P (omap f l)) <= length (filter P (omap f k)).
Proof.
  induction 1 as [|x l k _ IH|x y l|x l k _ IH|l1 l2 l3 _ IH1 _ IH2]; rewrite ?omap_cons; try lia.
  - destruct (f x); rewrite ?filter_cons; [case_decide; cbn|]; lia.
  - destruct (f x), (f y); rewrite ?filter_cons; repeat case_decide; cbn; lia.
  - destruct (f x); rewrite ?filter_cons; [case_decide; cbn|]; lia.
Qed.

(** The requests of distinct threads are among the requests: as many of
    them as of the requests satisfy any predicate, at most. *)
Lemma reqs_of_count (P : Request -> Prop) `{forall r, Decision (P r)} rs ids :
  NoDup ids -> Forall (fun i => i < length rs) ids ->
  length (filter P (reqs_of rs ids)) <= length (filter P rs).
Proof.
  intros Hnd Hb. rewrite <- (reqs_of_seq rs) at 2. apply filter_omap_submseteq, NoDup_submseteq; [done|].
  intros i Hi. apply elem_of_seq. rewrite Forall_forall in Hb. specialize (Hb i Hi). lia.
Qed.

(** C22: bounds under concurrency.  With the reference client, in every
    state the concurrent server reaches, whatever the interleaving, the
    event queue of each client holds at most one more event per request
    bound to that client than it held at the start: no interleaving makes
    a request track twice. *)
Theorem server_queue_bound cs0 rs s ref :
  rtc server_step (init_server cs0 rs) s ->
  length (qc_queue (sv_clients s ref)) <=
  length (qc_queue (cs0 ref)) + length (filter (fun r => r_client r = Some ref) rs).
Proof.
  intros Hrtc. pose proof (reachable_inv cs0 rs s Hrtc) as Hinv. rewrite (inv_clients _ _ _ Hinv).
  etrans; [apply replay_queue|]. apply Nat.add_le_mono_l, reqs_of_count; apply Hinv.
Qed.

Lemma server_serializable_witness :
  exists order reqs,
    order ≡ₚ seq 0 (length fx_server_reqs) /\
    Forall2 (fun i r => fx_server_reqs !! i = Some r) order reqs /\
    sv_clients fx_server_final = w_clients (serve reqs (fresh_world fx_server_clients)).2 /\
    Forall2 (fun i resp => exists t, sv_threads fx_server_final !! i = Some t /\ th_resp t = resp)
            order (serve reqs (fresh_world fx_server_clients)).1.
Proof.
  apply server_serializable.
  - apply (rtc_nsteps_2 (length fx_schedule)), run_schedule_nsteps. vm_compute. reflexivity.
  - vm_compute. repeat constructor.
Defined.

Lemma server_anonymous_witness : Forall anonymous (qc_queue (sv_clients fx_server_final 0)).
Proof.
  apply (server_anonymous fx_server_clients fx_server_reqs fx_server_final).
  - intros ref. vm_compute. constructor.
  - apply (rtc_nsteps_2 (length fx_schedule)), run_schedule_nsteps. vm_compute. reflexivity.
Defined.

Lemma server_queue_bound_witness :
  length (qc_queue (sv_clients fx_server_final 0)) <=
  length (qc_queue (fx_server_clients 0)) +
  length (filter (fun r => r_client r = Some 0) fx_server_reqs).
Proof.
  apply (server_queue_bound fx_server_clients fx_server_reqs fx_server_final 0).
  apply (rtc_nsteps_2 (length fx_schedule)), run_schedule_nsteps. vm_compute. reflexivity.
Defined.
